(** * hex_merge: merging Intel HEX / raw BIN fragments into one flat image

    A shallow embedding of [hex_merge.py] and the properties of its
    segment model: the HEX record decoder, the BIN loader, the segment
    merger of [collect_segments] and the padded writer [write_bin].

    Python integers are unbounded, so addresses are [Z]; [bytes] objects
    are [list byte]; tuples stay tuples. *)

From Stdlib Require Import Strings.Ascii Strings.String Strings.Byte.
From Stdlib Require Import ZArith List Bool Lia.
From Stdlib Require Import Sorting.Sorted Sorting.Permutation.
Import ListNotations.
Open Scope Z_scope.

(** ** Python sequence primitives *)

Module Py.

(** [len(x)] as a Python integer. *)
Definition len {A} (l : list A) : Z := Z.of_nat (length l).

(** Normalisation of one slice bound against a sequence of length [n]:
    a negative index counts from the end, and the result is clamped to
    [0 .. n]. *)
Definition clamp (n i : Z) : Z :=
  if i <? 0 then Z.max 0 (i + n) else Z.min i n.

(** [l[lo:hi]] with either bound possibly omitted. *)
Definition slice {A} (l : list A) (lo hi : option Z) : list A :=
  let n := len l in
  let lo' := match lo with None => 0 | Some i => clamp n i end in
  let hi' := match hi with None => n | Some i => clamp n i end in
  firstn (Z.to_nat (hi' - lo')) (skipn (Z.to_nat lo') l).

(** [l[-1]], defined when [l] is not empty. *)
Fixpoint last_opt {A} (l : list A) : option A :=
  match l with
  | [] => None
  | [x] => Some x
  | _ :: r => last_opt r
  end.

(** [l[-1] = x] on a non-empty list. *)
Definition set_last {A} (l : list A) (x : A) : list A :=
  removelast l ++ [x].

(** [bytes([b]) * n]. *)
Definition times {A} (b : A) (n : Z) : list A := repeat b (Z.to_nat n).

End Py.

(** ** Data model *)

Definition bytes := list byte.

(** What both readers yield: [(address, data)]. *)
Definition chunk : Type := Z * bytes.

(** What the merger works on and returns: [(start, end, data)]. *)
Definition span : Type := Z * Z * bytes.

Definition start_of (s : span) : Z := fst (fst s).
Definition end_of (s : span) : Z := snd (fst s).
Definition data_of (s : span) : bytes := snd s.

(** [segs.append((addr, addr + len(data), data))] builds this tuple. *)
Definition seg_of_chunk (c : chunk) : span :=
  let '(addr, data) := c in (addr, addr + Py.len data, data).

(** Reading a span back as an addressed chunk. *)
Definition chunk_of_span (s : span) : chunk := (start_of s, data_of s).

(** ** The merger: lines 76-93 of [collect_segments] *)

(** [segs.sort(key=lambda x: x[0])].  Python's sort is stable, and the
    result of a stable sort is determined by the input, so it is modelled
    by stable insertion: an element goes in front of the first element
    whose key is not smaller. *)
Fixpoint insert_by_start (x : span) (l : list span) : list span :=
  match l with
  | [] => [x]
  | y :: r =>
      if start_of x <=? start_of y then x :: l
      else y :: insert_by_start x r
  end.

Fixpoint sort_by_start (l : list span) : list span :=
  match l with
  | [] => []
  | x :: r => insert_by_start x (sort_by_start r)
  end.

(** One iteration of [for st, ed, data in segs]. *)
Definition merge_step (merged : list span) (seg : span) : list span :=
  let '(st, ed, data) := seg in
  match Py.last_opt merged with
  | None => merged ++ [(st, ed, data)]
  | Some (lst, led, ldata) =>
      if st <=? led then
        let new_ed := Z.max ed led in
        if st <? lst then
          Py.set_last merged
            (st, new_ed, Py.slice data None (Some (lst - st)) ++ ldata)
        else if ed >? led then
          Py.set_last merged
            (lst, new_ed, ldata ++ Py.slice data (Some (led - st)) None)
        else merged
      else merged ++ [(st, ed, data)]
  end.

(** The loop on the sorted list, starting from [merged = []]. *)
Definition merge_sorted (segs : list span) : list span :=
  fold_left merge_step segs [].

(** Sort, then merge. *)
Definition merge_segs (segs : list span) : list span :=
  merge_sorted (sort_by_start segs).

(** The merger applied to addressed chunks. *)
Definition merge_chunks (cs : list chunk) : list span :=
  merge_segs (map seg_of_chunk cs).

(** The same iteration with the backward-extension branch removed. *)
Definition merge_step_forward (merged : list span) (seg : span) : list span :=
  let '(st, ed, data) := seg in
  match Py.last_opt merged with
  | None => merged ++ [(st, ed, data)]
  | Some (lst, led, ldata) =>
      if st <=? led then
        if ed >? led then
          Py.set_last merged
            (lst, Z.max ed led, ldata ++ Py.slice data (Some (led - st)) None)
        else merged
      else merged ++ [(st, ed, data)]
  end.

(** ** Predicates on span lists *)

(** [len(data) == end - start]. *)
Definition span_ok (s : span) : Prop := Py.len (data_of s) = end_of s - start_of s.

(** Every span ends strictly before the next one starts. *)
Fixpoint separated (l : list span) : Prop :=
  match l with
  | a :: (b :: _) as r => end_of a < start_of b /\ separated r
  | _ => True
  end.

(** The shape of a merged image. *)
Definition merged_image (l : list span) : Prop :=
  Forall span_ok l /\ separated l.

(** Ordering by start address. *)
Definition le_start (a b : span) : Prop := start_of a <= start_of b.

(** What the loop maintains: [merged] is a merged image whose last span
    does not start after the segment that comes next. *)
Definition last_start_le (merged : list span) (k : Z) : Prop :=
  forall l, Py.last_opt merged = Some l -> start_of l <= k.

(** Each element followed by its copy. *)
Fixpoint twice (l : list span) : list span :=
  match l with
  | [] => []
  | a :: r => a :: a :: twice r
  end.

Definition AA : byte := xaa.
Definition BB : byte := xbb.

(** ** The writer: [write_bin] *)

(** The exceptions the program can die from. *)
Inductive exn : Type :=
| ValueError    (* int(), bytes.fromhex(), bytes([pad]) *)
| StructError   (* struct.unpack *)
| OSError.      (* opening or reading a file *)

(** What the program prints. *)
Inductive message : Type :=
| WarnNoData                         (* stderr: no segment at all, empty file *)
| ReportRange (start stop total : Z) (* stdout: range and size of the image *)
| ReportDone (size : Z)              (* stdout: size of the file written *)
| SkipMissing (p : string)           (* stderr: the file does not exist *)
| SkipUnknown (p : string)           (* stderr: neither .hex nor .bin *)
| ErrNoAddress (p : string).         (* stderr: a .bin without @addr *)

(** [bytes([n])[0]]: defined for [n] in [range(256)], [ValueError] otherwise. *)
Definition byte_of_int (n : Z) : option byte :=
  if (0 <=? n) && (n <? 256) then Byte.of_N (Z.to_N n) else None.

(** The observable result of [write_bin]: the bytes that reached the output
    file, what was printed, and the exception that ended the call, if any. *)
Record written : Type := {
  out_file : bytes;
  out_log : list message;
  out_raised : option exn
}.

(** [for st, ed, data in segments] inside the [with] block, the file
    contents so far being [f] and the cursor [pos]. *)
Fixpoint write_segments (pad : Z) (segments : list span) (pos : Z) (f : bytes)
  : bytes * Z * option exn :=
  match segments with
  | [] => (f, pos, None)
  | (st, ed, data) :: rest =>
      if st >? pos then
        match byte_of_int pad with
        | None => (f, pos, Some ValueError)
        | Some b =>
            write_segments pad rest ed ((f ++ Py.times b (st - pos)) ++ data)
        end
      else write_segments pad rest ed (f ++ data)
  end.

(** [write_bin(segments, out_path, base_addr, pad)].  [segments[0]] and
    [segments[-1]] are both defined exactly when the list is not empty. *)
Definition write_bin (segments : list span) (base_addr pad : Z) : written :=
  match segments, Py.last_opt segments with
  | (first, _, _) :: _, Some (_, last, _) =>
      let start := Z.min first base_addr in
      let stop := last in
      let total := stop - start in
      match write_segments pad segments start [] with
      | (f, pos, Some e) =>
          {| out_file := f; out_log := [ReportRange start stop total];
             out_raised := Some e |}
      | (f, pos, None) =>
          if pos <? stop then
            match byte_of_int pad with
            | None =>
                {| out_file := f; out_log := [ReportRange start stop total];
                   out_raised := Some ValueError |}
            | Some b =>
                let f' := f ++ Py.times b (stop - pos) in
                {| out_file := f';
                   out_log := [ReportRange start stop total; ReportDone (Py.len f')];
                   out_raised := None |}
            end
          else
            {| out_file := f;
               out_log := [ReportRange start stop total; ReportDone (Py.len f)];
               out_raised := None |}
      end
  | _, _ =>
      {| out_file := []; out_log := [WarnNoData]; out_raised := None |}
  end.

(** The contents of the image from [pos] on: before each span, padding up
    to its start, then its bytes. *)
Fixpoint layout (b : byte) (pos : Z) (segments : list span) : bytes :=
  match segments with
  | [] => []
  | s :: rest =>
      Py.times b (start_of s - pos) ++ data_of s ++ layout b (end_of s) rest
  end.

(** An address that belongs to one of the spans. *)
Definition covered (segments : list span) (a : Z) : Prop :=
  exists s, In s segments /\ start_of s <= a < end_of s.

(** Where the cursor stands after the loop. *)
Definition final_pos (pos : Z) (segments : list span) : Z :=
  match Py.last_opt segments with
  | Some l => end_of l
  | None => pos
  end.

(** The list starts at or after [pos]. *)
Definition starts_from (pos : Z) (segments : list span) : Prop :=
  forall h, hd_error segments = Some h -> pos <= start_of h.

(** ** Text and number primitives used by the HEX reader *)

(** A text line, as a sequence of characters. *)
Definition text := list ascii.

Definition ord (c : ascii) : Z := Z.of_N (N_of_ascii c).

(** The whitespace of [str.strip()] among ASCII characters: TAB, LF, VT,
    FF, CR, the separators 0x1C-0x1F, and the space. *)
Definition is_str_space (c : ascii) : bool :=
  let n := ord c in
  ((9 <=? n) && (n <=? 13)) || ((28 <=? n) && (n <=? 31)) || (n =? 32).

(** The whitespace skipped by [int()] and [bytes.fromhex()] in an ASCII
    string: TAB, LF, VT, FF, CR and the space. *)
Definition is_c_space (c : ascii) : bool :=
  let n := ord c in ((9 <=? n) && (n <=? 13)) || (n =? 32).

(** The value of a character as a digit, 37 when it is none:
    [0-9] are 0..9, [a-z] and [A-Z] are 10..35. *)
Definition digit_value (c : ascii) : Z :=
  let n := ord c in
  if (48 <=? n) && (n <=? 57) then n - 48
  else if (97 <=? n) && (n <=? 122) then n - 87
  else if (65 <=? n) && (n <=? 90) then n - 55
  else 37.

Fixpoint lstrip (s : text) : text :=
  match s with
  | c :: r => if is_str_space c then lstrip r else s
  | [] => []
  end.

(** [s.strip()]. *)
Definition strip (s : text) : text := rev (lstrip (rev (lstrip s))).

Fixpoint skip_spaces (s : text) : text :=
  match s with
  | c :: r => if is_c_space c then skip_spaces r else s
  | [] => []
  end.

(** The digit scan of [int()]: digits below [base], with single
    underscores between them; [prev_us] tells that the previous character
    was an underscore.  Returns the value read and the unread rest, or
    nothing when an underscore is doubled or trailing. *)
Fixpoint scan_digits (base : Z) (s : text) (prev_us : bool) (acc : Z)
  : option (Z * text) :=
  match s with
  | c :: r =>
      if digit_value c <? base then
        scan_digits base r false (acc * base + digit_value c)
      else if (c =? "_")%char then
        if prev_us then None else scan_digits base r true acc
      else if prev_us then None else Some (acc, s)
  | [] => if prev_us then None else Some (acc, [])
  end.

(** An optional sign in front of the number. *)
Definition take_sign (s : text) : Z * text :=
  match s with
  | c :: r =>
      if (c =? "+")%char then (1, r)
      else if (c =? "-")%char then (-1, r)
      else (1, s)
  | [] => (1, s)
  end.

(** An optional [0x] or [0X] in front of the digits of a base 16 number;
    one underscore may follow it. *)
Definition skip_prefix16 (s : text) : text :=
  match s with
  | c0 :: x :: r =>
      if (c0 =? "0")%char && ((x =? "x")%char || (x =? "X")%char) then
        match r with
        | u :: r' => if (u =? "_")%char then r' else r
        | [] => r
        end
      else s
  | _ => s
  end.

(** [int(s, 16)] on an ASCII string; [None] stands for [ValueError].
    Leading whitespace, the sign, the prefix, the digits (at least one,
    not starting with an underscore), trailing whitespace, and nothing
    else. *)
Definition int16 (s : text) : option Z :=
  let '(sign, s2) := take_sign (skip_spaces s) in
  let s3 := skip_prefix16 s2 in
  match s3 with
  | [] => None
  | c :: _ =>
      if (c =? "_")%char then None
      else
        match scan_digits 16 s3 false 0 with
        | None => None
        | Some (v, rest) =>
            if (length rest =? length s3)%nat then None
            else
              match skip_spaces rest with
              | [] => Some (sign * v)
              | _ :: _ => None
              end
        end
  end.

(** [bytes.fromhex(s)] on an ASCII string; [None] stands for [ValueError].
    Whitespace is skipped between bytes, never inside one. *)
Fixpoint fromhex (s : text) : option bytes :=
  match s with
  | [] => Some []
  | c :: r =>
      if is_c_space c then fromhex r
      else if digit_value c <? 16 then
        match r with
        | d :: r' =>
            if digit_value d <? 16 then
              match byte_of_int (digit_value c * 16 + digit_value d), fromhex r' with
              | Some b, Some bs => Some (b :: bs)
              | _, _ => None
              end
            else None
        | [] => None
        end
      else None
  end.

(** [struct.unpack('>H', data)[0]]; [None] stands for [struct.error]. *)
Definition unpack_be16 (data : bytes) : option Z :=
  match data with
  | [hi; lo] => Some (Z.of_N (Byte.to_N hi) * 256 + Z.of_N (Byte.to_N lo))
  | _ => None
  end.

(** Decoding with [encoding='ascii', errors='ignore']: bytes above 0x7F
    are dropped. *)
Definition decode_ascii (content : bytes) : text :=
  map ascii_of_byte (filter (fun b => (Byte.to_N b <? 128)%N) content).

Definition LF : ascii := "010"%char.
Definition CR : ascii := "013"%char.

(** The lines a text file yields with universal newlines: a line ends at
    LF, CR LF or CR, each read back as LF; [cur] is the line being
    collected. *)
Fixpoint text_lines (s : text) (cur : text) : list text :=
  match s with
  | [] => match cur with [] => [] | _ :: _ => [cur] end
  | c :: r =>
      if (c =? LF)%char then (cur ++ [LF]) :: text_lines r []
      else if (c =? CR)%char then
        match r with
        | c' :: r' =>
            if (c' =? LF)%char then (cur ++ [LF]) :: text_lines r' []
            else (cur ++ [LF]) :: text_lines r []
        | [] => (cur ++ [LF]) :: text_lines r []
        end
      else text_lines r (cur ++ [c])
  end.

(** ** The HEX reader: [read_hex_records] *)

(** The fields read from one line, before the record type is looked at. *)
Inductive parsed : Type :=
| Ignored                                   (* blank, or not starting with ':' *)
| Malformed (e : exn)                       (* int() or fromhex() raised *)
| Record (count addr rtype : Z) (data : bytes).

(** Lines 23-28. *)
Definition parse_line (raw : text) : parsed :=
  let line := strip raw in
  match line with
  | [] => Ignored
  | c :: _ =>
      if negb (c =? ":")%char then Ignored
      else
        match int16 (Py.slice line (Some 1) (Some 3)) with
        | None => Malformed ValueError
        | Some count =>
        match int16 (Py.slice line (Some 3) (Some 7)) with
        | None => Malformed ValueError
        | Some addr =>
        match int16 (Py.slice line (Some 7) (Some 9)) with
        | None => Malformed ValueError
        | Some rtype =>
        match fromhex (Py.slice line (Some 9) (Some (9 + count * 2))) with
        | None => Malformed ValueError
        | Some data => Record count addr rtype data
        end end end end
  end.

(** What one iteration of the loop does. *)
Inductive action : Type :=
| Skip
| Yield (c : chunk)
| SetBase (ext_addr : Z)
| Break
| Raise (e : exn).

(** Lines 23-34, with [ext_addr] the current extended address. *)
Definition hex_line (ext_addr : Z) (raw : text) : action :=
  match parse_line raw with
  | Ignored => Skip
  | Malformed e => Raise e
  | Record count addr rtype data =>
      if rtype =? 0x00 then Yield (ext_addr + addr, data)
      else if rtype =? 0x04 then
        match unpack_be16 data with
        | Some v => SetBase (Z.shiftl v 16)
        | None => Raise StructError
        end
      else if rtype =? 0x01 then Break
      else Skip
  end.

(** The generator run to its end over the lines of a file: the chunks it
    yields, and the exception that ended it, if any. *)
Fixpoint read_hex_lines (ext_addr : Z) (lines : list text)
  : list chunk * option exn :=
  match lines with
  | [] => ([], None)
  | raw :: rest =>
      match hex_line ext_addr raw with
      | Skip => read_hex_lines ext_addr rest
      | Yield c =>
          let '(cs, e) := read_hex_lines ext_addr rest in (c :: cs, e)
      | SetBase ext_addr' => read_hex_lines ext_addr' rest
      | Break => ([], None)
      | Raise e => ([], Some e)
      end
  end.

(** [read_hex_records(path)] on the contents of the file. *)
Definition read_hex_records (content : bytes) : list chunk * option exn :=
  read_hex_lines 0 (text_lines (decode_ascii content) []).

(** The extended address with which the loop goes on after [lines], when
    none of them ended it. *)
Fixpoint ext_after (ext_addr : Z) (lines : list text) : option Z :=
  match lines with
  | [] => Some ext_addr
  | raw :: rest =>
      match hex_line ext_addr raw with
      | Skip | Yield _ => ext_after ext_addr rest
      | SetBase ext_addr' => ext_after ext_addr' rest
      | Break | Raise _ => None
      end
  end.


(** The characters [int(s, 16)] can accept somewhere in [s]. *)
Definition int16_char (c : ascii) : bool :=
  is_c_space c || (digit_value c <? 16)
  || (c =? "+")%char || (c =? "-")%char || (c =? "_")%char
  || (c =? "x")%char || (c =? "X")%char.

(** A string literal as a line of text. *)
Definition line (s : string) : text := list_ascii_of_string s.

(** ** The BIN reader: [read_bin] *)

Definition read_bin (content : bytes) (load_addr : Z) : list chunk :=
  [(load_addr, content)].

(** ** Collecting the inputs: lines 48-74 of [collect_segments] *)

(** What a path leads to. *)
Inductive entry : Type :=
| Absent                      (* [p.exists()] is false *)
| Unreadable                  (* exists, but opening or reading it fails *)
| File (content : bytes).

(** What the program takes from its surroundings. *)
Record env : Type := {
  lookup : string -> entry;         (* the file system, through [Path(s)] *)
  suffix_lower : string -> string;  (* [Path(s).suffix.lower()] *)
  int_auto : string -> option Z     (* [int(s, 0)], [None] for [ValueError] *)
}.

(** [item.rsplit('@', 1)] when ['@' in item], nothing otherwise: the text
    before the last [@] and the text after it. *)
Fixpoint rsplit_at (item : string) : option (string * string) :=
  match item with
  | EmptyString => None
  | String c r =>
      match rsplit_at r with
      | Some (path_str, addr_str) => Some (String c path_str, addr_str)
      | None => if (c =? "@")%char then Some (EmptyString, r) else None
      end
  end.

(** How a run ends before its time. *)
Inductive stop : Type :=
| Exited (code : Z)   (* sys.exit(code) *)
| Died (e : exn).     (* an exception nobody catches *)

(** The segments collected and the messages printed so far. *)
Definition loading : Type := list span * list message.

(** One iteration of [for item in file_list], from the split item on. *)
Definition load_path (E : env) (st : loading) (p : string) (load_addr : option Z)
  : loading * option stop :=
  let '(segs, log) := st in
  match lookup E p with
  | Absent => ((segs, log ++ [SkipMissing p]), None)
  | found =>
      if (suffix_lower E p =? ".hex")%string then
        match found with
        | File content =>
            let '(cs, e) := read_hex_records content in
            ((segs ++ map seg_of_chunk cs, log), option_map Died e)
        | _ => ((segs, log), Some (Died OSError))
        end
      else if (suffix_lower E p =? ".bin")%string then
        match load_addr with
        | None => ((segs, log ++ [ErrNoAddress p]), Some (Exited 1))
        | Some a =>
            match found with
            | File content =>
                ((segs ++ map seg_of_chunk (read_bin content a), log), None)
            | _ => ((segs, log), Some (Died OSError))
            end
        end
      else ((segs, log ++ [SkipUnknown p]), None)
  end.

Definition load_item (E : env) (st : loading) (item : string)
  : loading * option stop :=
  match rsplit_at item with
  | Some (path_str, addr_str) =>
      match int_auto E addr_str with
      | None => (st, Some (Died ValueError))
      | Some load_addr => load_path E st path_str (Some load_addr)
      end
  | None => load_path E st item None
  end.

(** The loop over [file_list]. *)
Fixpoint load_items (E : env) (file_list : list string) (st : loading)
  : loading * option stop :=
  match file_list with
  | [] => (st, None)
  | item :: rest =>
      match load_item E st item with
      | (st', None) => load_items E rest st'
      | (st', Some s) => (st', Some s)
      end
  end.

(** [collect_segments(file_list)]: the merged spans when the call returns,
    how it ended otherwise; in both cases what was printed. *)
Definition collect_segments (E : env) (file_list : list string)
  : (list span + stop) * list message :=
  match load_items E file_list ([], []) with
  | ((segs, log), None) => (inl (merge_segs segs), log)
  | ((_, log), Some s) => (inr s, log)
  end.

(** ** The program: [main] *)

(** The exit status of the process: what [sys.exit] was given, 1 after an
    uncaught exception. *)
Definition exit_status (s : stop) : Z :=
  match s with
  | Exited code => code
  | Died _ => 1
  end.

(** A whole run. *)
Record run : Type := {
  status : Z;                  (* exit status *)
  output : option bytes;       (* the output file, when it was written to *)
  printed : list message
}.

(** [main()] for the parsed arguments [inputs], [-b base] and [-p pad]. *)
Definition main (E : env) (inputs : list string) (base pad : Z) : run :=
  match collect_segments E inputs with
  | (inl segments, log) =>
      let w := write_bin segments base pad in
      {| status := match out_raised w with None => 0 | Some e => exit_status (Died e) end;
         output := Some (out_file w);
         printed := log ++ out_log w |}
  | (inr s, log) =>
      {| status := exit_status s; output := None; printed := log |}
  end.

(** A small world to run examples in: [boot.bin] holds sixteen zero
    bytes, [app.hex] two data records behind an extended address record.
    It stands for the real surroundings only on the inputs the examples
    use: file names in lower case without directories, whose suffix is
    what follows the last dot, and address texts that are either written
    in base 16 after [0x] or no number at all. *)
Definition demo_hex : bytes :=
  map byte_of_ascii
      (line ":020000040800F2" ++ [LF] ++ line ":02000000AABB99" ++ [CR; LF]
       ++ line ":02002000CCDD35" ++ [LF] ++ line ":00000001FF" ++ [LF]).

Fixpoint last_dot (s : string) : option string :=
  match s with
  | EmptyString => None
  | String c r =>
      match last_dot r with
      | Some suf => Some suf
      | None => if (c =? ".")%char then Some s else None
      end
  end.

Definition demo_env : env := {|
  lookup := fun p =>
    if (p =? "boot.bin")%string then File (repeat x00 16)
    else if (p =? "app.hex")%string then File demo_hex
    else if (p =? "notes.txt")%string then File []
    else Absent;
  suffix_lower := fun p => match last_dot p with Some suf => suf | None => EmptyString end;
  int_auto := fun s =>
    match list_ascii_of_string s with
    | c0 :: x :: r =>
        if ((c0 =? "0") && (x =? "x"))%char then int16 (c0 :: x :: r) else None
    | _ => None
    end
|}.

(** ** The memory view of a span list *)

(** The span holds address [a]. *)
Definition covers (s : span) (a : Z) : bool :=
  (start_of s <=? a) && (a <? end_of s).

(** The first span of the list that holds [a]. *)
Definition owner (l : list span) (a : Z) : option span :=
  find (fun s => covers s a) l.

(** The byte the list gives to address [a]: that of its first span holding
    [a]. *)
Definition byte_at (l : list span) (a : Z) : option byte :=
  match owner l a with
  | Some s => nth_error (data_of s) (Z.to_nat (a - start_of s))
  | None => None
  end.

(** The address range of a chunk holds [a]. *)
Definition chunk_covers (c : chunk) (a : Z) : Prop :=
  fst c <= a < fst c + Py.len (snd c).

(** ** Plain hexadecimal text *)

(** A hexadecimal digit. *)
Definition is_hex (c : ascii) : bool := digit_value c <? 16.

(** The number written by a string of hexadecimal digits. *)
Definition hex_value (s : text) : Z :=
  fold_left (fun acc c => acc * 16 + digit_value c) s 0.

(** A character that does not end a line. *)
Definition no_eol (c : ascii) : bool := negb (c =? CR)%char && negb (c =? LF)%char.

(** The text of a file whose lines all end with [eol]. *)
Definition join_lines (eol : text) (ls : list text) : text :=
  concat (map (fun l => l ++ eol) ls).

(** The text does not begin with a line feed. *)
Definition no_lf_first (s : text) : bool :=
  match s with
  | c :: _ => negb (c =? LF)%char
  | [] => true
  end.

(** ** Input items *)

(** ['@' in item]. *)
Fixpoint has_at (item : string) : bool :=
  match item with
  | EmptyString => false
  | String c r => (c =? "@")%char || has_at r
  end.

(** The path an item names. *)
Definition item_path (item : string) : string :=
  match rsplit_at item with
  | Some (path_str, _) => path_str
  | None => item
  end.

(** The item has no [@addr], or one that [int(addr_str, 0)] accepts. *)
Definition item_addr_ok (E : env) (item : string) : bool :=
  match rsplit_at item with
  | Some (_, addr_str) =>
      match int_auto E addr_str with Some _ => true | None => false end
  | None => true
  end.

(** The same world with one more file, [bad.hex], whose second record has
    a byte count that is no number. *)
Definition bad_hex : bytes :=
  map byte_of_ascii
      (line ":02000000AABB99" ++ [LF] ++ line ":0G000000CCDD" ++ [LF]).

Definition faulty_env : env := {|
  lookup := fun p =>
    if (p =? "bad.hex")%string then File bad_hex else lookup demo_env p;
  suffix_lower := suffix_lower demo_env;
  int_auto := int_auto demo_env
|}.

(** * Properties *)

Example merge_adjacent :
  merge_chunks [(0x100, repeat AA 16); (0x110, repeat BB 16)]
  = [(0x100, 0x120, repeat AA 16 ++ repeat BB 16)].
Proof. reflexivity. Qed.

(** ** Lists seen from their last element *)

Lemma last_opt_snoc {A} (l : list A) (x : A) : Py.last_opt (l ++ [x]) = Some x.
Proof.
  induction l as [|a l IH]; [reflexivity|].
  simpl. rewrite IH. destruct (l ++ [x]) eqn:E; [|reflexivity].
  destruct l; discriminate.
Qed.

Lemma last_opt_none {A} (l : list A) : Py.last_opt l = None -> l = [].
Proof.
  destruct l as [|a l] using rev_ind; [reflexivity|].
  rewrite last_opt_snoc. discriminate.
Qed.

Lemma set_last_snoc {A} (l : list A) (x y : A) : Py.set_last (l ++ [x]) y = l ++ [y].
Proof. unfold Py.set_last. now rewrite removelast_last. Qed.

Lemma len_nonneg {A} (l : list A) : 0 <= Py.len l.
Proof. unfold Py.len. lia. Qed.

Lemma len_app {A} (l r : list A) : Py.len (l ++ r) = Py.len l + Py.len r.
Proof. unfold Py.len. rewrite length_app. lia. Qed.

(** [data[k:]] for an index inside the sequence. *)
Lemma slice_from {A} (l : list A) (k : Z) :
  0 <= k <= Py.len l -> Py.slice l (Some k) None = skipn (Z.to_nat k) l.
Proof.
  intros Hk. unfold Py.slice, Py.clamp.
  destruct (k <? 0) eqn:E; [lia|].
  rewrite Z.min_l by lia.
  apply firstn_all2. rewrite length_skipn. unfold Py.len in *. lia.
Qed.

Lemma len_slice_from {A} (l : list A) (k : Z) :
  0 <= k <= Py.len l -> Py.len (Py.slice l (Some k) None) = Py.len l - k.
Proof.
  intros Hk. rewrite slice_from by assumption.
  unfold Py.len in *. rewrite length_skipn. lia.
Qed.

(** ** The sort *)

Lemma insert_by_start_perm x l : Permutation (x :: l) (insert_by_start x l).
Proof.
  induction l as [|y r IH]; simpl; [constructor; constructor|].
  destruct (start_of x <=? start_of y); [reflexivity|].
  rewrite perm_swap. now constructor.
Qed.

Lemma sort_by_start_perm l : Permutation l (sort_by_start l).
Proof.
  induction l as [|x r IH]; simpl; [constructor|].
  rewrite <- insert_by_start_perm. now constructor.
Qed.

Lemma insert_by_start_sorted x l :
  StronglySorted le_start l -> StronglySorted le_start (insert_by_start x l).
Proof.
  induction 1 as [|y r Hr IH Hy]; simpl.
  - repeat constructor.
  - destruct (start_of x <=? start_of y) eqn:E.
    + apply Z.leb_le in E. constructor; [now constructor|].
      constructor; [exact E|].
      eapply Forall_impl; [|exact Hy]. unfold le_start. intros; lia.
    + apply Z.leb_gt in E. constructor; [exact IH|].
      rewrite <- insert_by_start_perm.
      constructor; [unfold le_start; lia | exact Hy].
Qed.

Lemma sort_by_start_sorted l : StronglySorted le_start (sort_by_start l).
Proof.
  induction l; simpl; [constructor | now apply insert_by_start_sorted].
Qed.

(** Stability: elements with the same start keep their input order. *)
Lemma sort_by_start_stable k l :
  filter (fun s => start_of s =? k) (sort_by_start l)
  = filter (fun s => start_of s =? k) l.
Proof.
  induction l as [|x r IH]; [reflexivity|].
  cbn [sort_by_start filter]. rewrite <- IH.
  generalize (sort_by_start_sorted r).
  generalize (sort_by_start r) as m. clear IH.
  induction m as [|y m IHm]; intros Hs; [reflexivity|].
  cbn [insert_by_start].
  destruct (start_of x <=? start_of y) eqn:E; [reflexivity|].
  apply Z.leb_gt in E. apply StronglySorted_inv in Hs as [Hm Hy].
  cbn [filter]. rewrite (IHm Hm).
  destruct (start_of y =? k) eqn:Ey, (start_of x =? k) eqn:Ex; try reflexivity.
  apply Z.eqb_eq in Ey, Ex. lia.
Qed.

Lemma insert_by_start_skip x p r :
  Forall (fun y => start_of y < start_of x) p ->
  insert_by_start x (p ++ r) = p ++ insert_by_start x r.
Proof.
  induction 1 as [|y p Hy _ IH]; [reflexivity|].
  simpl. destruct (start_of x <=? start_of y) eqn:E.
  - apply Z.leb_le in E. lia.
  - now rewrite IH.
Qed.

Lemma sort_by_start_id l : StronglySorted le_start l -> sort_by_start l = l.
Proof.
  induction 1 as [|x r Hr IH Hx]; [reflexivity|].
  simpl. rewrite IH. destruct r as [|y r']; [reflexivity|].
  simpl. apply Forall_inv in Hx. unfold le_start in Hx.
  destruct (start_of x <=? start_of y) eqn:E; [reflexivity|].
  apply Z.leb_gt in E. lia.
Qed.

(** ** The merge loop *)

Lemma span_ok_le s : span_ok s -> start_of s <= end_of s.
Proof. unfold span_ok. intros H. pose proof (len_nonneg (data_of s)). lia. Qed.

Lemma separated_snoc init a b :
  separated (init ++ [a]) -> end_of a < start_of b ->
  separated ((init ++ [a]) ++ [b]).
Proof.
  induction init as [|x init IH]; simpl; [tauto|].
  intros H Hab.
  destruct init as [|y init]; simpl in *; [tauto|].
  destruct H as [Hxy H]. split; [exact Hxy|]. now apply IH.
Qed.

Lemma separated_set_last init a a' :
  separated (init ++ [a]) -> start_of a' = start_of a ->
  separated (init ++ [a']).
Proof.
  induction init as [|x init IH]; simpl; [tauto|].
  intros H Ha.
  destruct init as [|y init]; simpl in *.
  - rewrite Ha. tauto.
  - destruct H as [Hxy H]. split; [exact Hxy|]. now apply IH.
Qed.

Lemma separated_last_lt init a m b :
  separated (init ++ a :: m) -> In b m -> Forall span_ok (a :: m) ->
  end_of a < start_of b.
Proof.
  intros H Hb Hok. revert a init H Hok.
  induction m as [|c m IH]; intros a init H Hok; [contradiction|].
  assert (Hac : end_of a < start_of c).
  { clear - H. induction init as [|x init IHi]; simpl in *; [tauto|].
    destruct init; simpl in *; tauto. }
  destruct Hb as [->|Hb]; [exact Hac|].
  apply Forall_inv_tail in Hok as Hok'.
  specialize (IH Hb c (init ++ [a])).
  rewrite <- app_assoc in IH. specialize (IH H Hok').
  apply Forall_inv in Hok'. apply span_ok_le in Hok'. lia.
Qed.

Lemma merge_step_nil seg : merge_step [] seg = [seg].
Proof. destruct seg as [[st ed] data]. reflexivity. Qed.

Lemma merge_step_snoc init l seg :
  merge_step (init ++ [l]) seg =
  if start_of seg <=? end_of l then
    if start_of seg <? start_of l then
      init ++ [(start_of seg, Z.max (end_of seg) (end_of l),
                Py.slice (data_of seg) None (Some (start_of l - start_of seg))
                ++ data_of l)]
    else if end_of seg >? end_of l then
      init ++ [(start_of l, Z.max (end_of seg) (end_of l),
                data_of l
                ++ Py.slice (data_of seg) (Some (end_of l - start_of seg)) None)]
    else init ++ [l]
  else (init ++ [l]) ++ [seg].
Proof.
  destruct seg as [[st ed] data], l as [[lst led] ldata].
  unfold merge_step, start_of, end_of, data_of. simpl fst; simpl snd.
  rewrite last_opt_snoc, !set_last_snoc. reflexivity.
Qed.

Lemma merge_step_forward_nil seg : merge_step_forward [] seg = [seg].
Proof. destruct seg as [[st ed] data]. reflexivity. Qed.

Lemma merge_step_forward_snoc init l seg :
  merge_step_forward (init ++ [l]) seg =
  if start_of seg <=? end_of l then
    if end_of seg >? end_of l then
      init ++ [(start_of l, Z.max (end_of seg) (end_of l),
                data_of l
                ++ Py.slice (data_of seg) (Some (end_of l - start_of seg)) None)]
    else init ++ [l]
  else (init ++ [l]) ++ [seg].
Proof.
  destruct seg as [[st ed] data], l as [[lst led] ldata].
  unfold merge_step_forward, start_of, end_of, data_of. simpl fst; simpl snd.
  rewrite last_opt_snoc, !set_last_snoc. reflexivity.
Qed.

Lemma merge_step_inv merged seg :
  merged_image merged -> span_ok seg ->
  last_start_le merged (start_of seg) ->
  merged_image (merge_step merged seg)
  /\ merge_step merged seg = merge_step_forward merged seg
  /\ forall k, start_of seg <= k -> last_start_le (merge_step merged seg) k.
Proof.
  intros [Hok Hsep] Hseg Hlast.
  destruct merged as [|l init _] using rev_ind.
  - rewrite merge_step_nil, merge_step_forward_nil.
    repeat split; [now constructor|].
    intros k Hk l' [= <-]. exact Hk.
  - specialize (Hlast l (last_opt_snoc _ _)).
    apply Forall_app in Hok as [Hinit Hl].
    apply Forall_inv in Hl.
    rewrite merge_step_snoc, merge_step_forward_snoc.
    destruct (start_of seg <=? end_of l) eqn:E1.
    + apply Z.leb_le in E1.
      destruct (start_of seg <? start_of l) eqn:E2; [apply Z.ltb_lt in E2; lia|].
      destruct (end_of seg >? end_of l) eqn:E3.
      * apply Z.gtb_gt in E3. repeat split.
        -- apply Forall_app. split; [exact Hinit|]. constructor; [|constructor].
           unfold span_ok in *. cbn [data_of start_of end_of fst snd].
           rewrite len_app, len_slice_from by lia. lia.
        -- eapply separated_set_last; [exact Hsep | reflexivity].
        -- intros k Hk l'. rewrite last_opt_snoc. intros [= <-].
           cbn [start_of fst]. lia.
      * repeat split.
        -- apply Forall_app. split; [exact Hinit | now constructor].
        -- exact Hsep.
        -- intros k Hk l'. rewrite last_opt_snoc. intros [= <-]. lia.
    + apply Z.leb_gt in E1. repeat split.
      * apply Forall_app. split; [|now constructor].
        apply Forall_app. split; [exact Hinit | now constructor].
      * now apply separated_snoc.
      * intros k Hk l'. rewrite last_opt_snoc. intros [= <-]. exact Hk.
Qed.

Lemma merge_loop_inv segs : forall merged,
  StronglySorted le_start segs -> Forall span_ok segs ->
  merged_image merged ->
  Forall (fun s => last_start_le merged (start_of s)) segs ->
  merged_image (fold_left merge_step segs merged)
  /\ fold_left merge_step segs merged = fold_left merge_step_forward segs merged.
Proof.
  induction segs as [|seg segs IH]; intros merged Hs Hok Hm Hl; [now split|].
  apply StronglySorted_inv in Hs as [Hs Hseg].
  apply Forall_inv_tail in Hok as Hok'. apply Forall_inv in Hok.
  apply Forall_inv_tail in Hl as Hl'. apply Forall_inv in Hl.
  destruct (merge_step_inv merged seg Hm Hok Hl) as (Hm' & Heq & Hk).
  simpl. rewrite <- Heq. apply IH; try assumption.
  eapply Forall_impl; [|exact Hseg]. intros s Hle. apply Hk. exact Hle.
Qed.

Lemma seg_of_chunk_ok c : span_ok (seg_of_chunk c).
Proof.
  destruct c as [addr data].
  unfold span_ok, seg_of_chunk, data_of, end_of, start_of. cbn [fst snd]. lia.
Qed.

Lemma merge_segs_image segs :
  Forall span_ok segs ->
  merged_image (merge_segs segs)
  /\ merge_segs segs = fold_left merge_step_forward (sort_by_start segs) [].
Proof.
  intros Hok. unfold merge_segs, merge_sorted.
  apply merge_loop_inv.
  - apply sort_by_start_sorted.
  - eapply Permutation_Forall; [apply sort_by_start_perm | exact Hok].
  - split; [constructor | exact I].
  - apply Forall_forall. intros s _ l. discriminate.
Qed.

Lemma merge_chunks_image cs : merged_image (merge_chunks cs).
Proof.
  apply merge_segs_image, Forall_forall. intros s Hs.
  apply in_map_iff in Hs as (c & <- & _). apply seg_of_chunk_ok.
Qed.

Lemma merged_image_nth l : forall i j s t,
  merged_image l -> (i < j)%nat ->
  nth_error l i = Some s -> nth_error l j = Some t ->
  end_of s < start_of t.
Proof.
  intros i j s t [Hok Hsep] Hij Hi Hj.
  apply nth_error_split in Hi as (pre & post & -> & Hlen).
  apply Forall_app in Hok as [_ Hok].
  rewrite nth_error_app2 in Hj by lia.
  destruct (j - length pre)%nat as [|n] eqn:En; [lia|].
  simpl in Hj. apply nth_error_In in Hj.
  eapply separated_last_lt; eassumption.
Qed.

(** C1: the span list returned by the merger is ascending in [start], and
    an earlier span ends at or before ([<=]), indeed strictly before, the
    start of any later one; for [j = i + 1] this is
    [spans[i].end <= spans[i+1].start]. *)
Theorem merge_chunks_sorted_separated (cs : list chunk) (i j : nat) (s t : span) :
  (i < j)%nat ->
  nth_error (merge_chunks cs) i = Some s ->
  nth_error (merge_chunks cs) j = Some t ->
  start_of s <= start_of t /\ end_of s <= start_of t /\ end_of s < start_of t.
Proof.
  intros Hij Hi Hj.
  pose proof (merge_chunks_image cs) as Him.
  pose proof (merged_image_nth _ _ _ _ _ Him Hij Hi Hj) as Hlt.
  destruct Him as [Hok _].
  apply nth_error_In in Hi.
  pose proof (span_ok_le s (proj1 (Forall_forall _ _) Hok s Hi)).
  lia.
Qed.

Lemma merge_chunks_sorted_separated_witness :
  let cs := [(0x200, [x01; x02]); (0x100, [x03]); (0x101, [x04]); (0x300, [x05])] in
  merge_chunks cs = [(0x100, 0x102, [x03; x04]); (0x200, 0x202, [x01; x02]);
                     (0x300, 0x301, [x05])]
  /\ (0x100 <= 0x300 /\ 0x102 <= 0x300 /\ 0x102 < 0x300).
Proof.
  split; [reflexivity|].
  exact (merge_chunks_sorted_separated
           [(0x200, [x01; x02]); (0x100, [x03]); (0x101, [x04]); (0x300, [x05])]
           0%nat 2%nat (0x100, 0x102, [x03; x04]) (0x300, 0x301, [x05])
           (le_S _ _ (le_n _)) eq_refl eq_refl).
Defined.

(** C2, as stated, fails: the merged span is [0x100, 0x130), but its bytes
    at addresses [0x110, 0x120) are not those of the second chunk. *)
Lemma overlap_not_from_second_chunk :
  ~ (exists data,
        merge_chunks [(0x100, repeat AA 32); (0x110, repeat BB 32)]
        = [(0x100, 0x130, data)]
        /\ Py.slice data (Some 0x10) (Some 0x20) = repeat BB 16).
Proof.
  intros (data & Hm & Hs).
  vm_compute in Hm. injection Hm as <-.
  vm_compute in Hs. discriminate.
Qed.

(** C2, amended: the two chunks merge into the single span [0x100, 0x130);
    the bytes at [0x110, 0x120) are those of the first chunk (0xAA), and
    only the part of the second chunk past 0x120 is appended. *)
Theorem overlap_keeps_first_chunk :
  merge_chunks [(0x100, repeat AA 32); (0x110, repeat BB 32)]
  = [(0x100, 0x130, repeat AA 32 ++ repeat BB 16)]
  /\ Py.slice (repeat AA 32 ++ repeat BB 16) (Some 0x10) (Some 0x20) = repeat AA 16
  /\ Py.slice (repeat AA 32 ++ repeat BB 16) (Some 0x20) (Some 0x30) = repeat BB 16.
Proof. repeat split. Qed.

(** C3: every span returned by the merger carries exactly [end - start]
    bytes, and the backward-extension branch is dead code on the sorted
    list: the loop without it computes the same result. *)
Theorem merge_chunks_span_lengths (cs : list chunk) :
  Forall (fun s => Py.len (data_of s) = end_of s - start_of s) (merge_chunks cs)
  /\ merge_chunks cs
     = fold_left merge_step_forward (sort_by_start (map seg_of_chunk cs)) [].
Proof.
  split.
  - apply (merge_chunks_image cs).
  - apply merge_segs_image, Forall_forall. intros s Hs.
    apply in_map_iff in Hs as (c & <- & _). apply seg_of_chunk_ok.
Qed.

(** ** Merging a merged image with itself *)

Lemma merged_image_app_inv l r : merged_image (l ++ r) -> merged_image r.
Proof.
  intros [Hok Hsep]. apply Forall_app in Hok as [_ Hok]. split; [exact Hok|].
  clear Hok. induction l as [|x l IH]; [exact Hsep|].
  apply IH. simpl in Hsep. destruct (l ++ r); [exact I | tauto].
Qed.

Lemma merged_image_before p a q :
  merged_image (p ++ a :: q) ->
  Forall (fun y => start_of y < start_of a) p.
Proof.
  intros Him. apply Forall_forall. intros y Hy.
  apply In_nth_error in Hy as [i Hi].
  assert (Hlt : (i < length p)%nat) by (apply nth_error_Some; congruence).
  pose proof (merged_image_nth (p ++ a :: q) i (length p) y a Him Hlt) as H.
  rewrite nth_error_app1, nth_error_app2, Nat.sub_diag in H by lia.
  specialize (H Hi eq_refl).
  destruct Him as [Hok _].
  assert (Hy : span_ok y).
  { eapply Forall_forall; [exact Hok|]. apply in_or_app. left.
    eapply nth_error_In; eassumption. }
  apply span_ok_le in Hy. lia.
Qed.

Lemma merged_image_sorted l : merged_image l -> StronglySorted le_start l.
Proof.
  induction l as [|a l IH]; intros Him; [constructor|].
  constructor.
  - apply IH. apply (merged_image_app_inv [a] l Him).
  - apply Forall_forall. intros b Hb.
    destruct Him as [Hok Hsep].
    pose proof (separated_last_lt [] a l b Hsep Hb Hok).
    apply Forall_inv, span_ok_le in Hok. unfold le_start. lia.
Qed.

Lemma sort_by_start_twice q : forall p,
  merged_image (p ++ q) -> sort_by_start (q ++ p ++ q) = p ++ twice q.
Proof.
  induction q as [|a q IH]; intros p Him.
  - rewrite !app_nil_r in *. now apply sort_by_start_id, merged_image_sorted.
  - cbn [app sort_by_start twice].
    replace (p ++ a :: q) with ((p ++ [a]) ++ q) by now rewrite <- app_assoc.
    rewrite IH by now rewrite <- app_assoc.
    rewrite <- app_assoc. cbn [app].
    rewrite insert_by_start_skip by (eapply merged_image_before; exact Him).
    cbn [insert_by_start]. now rewrite Z.leb_refl.
Qed.

(** A segment that starts past the end of everything merged so far opens
    a new span. *)
Lemma merge_step_apart init a m :
  merged_image (init ++ a :: m) -> merge_step init a = init ++ [a].
Proof.
  intros Him.
  destruct init as [|l init _] using rev_ind; [apply merge_step_nil|].
  rewrite merge_step_snoc.
  assert (Hlt : end_of l < start_of a).
  { rewrite <- app_assoc in Him. destruct Him as [Hok Hsep].
    apply Forall_app in Hok as [_ Hok].
    eapply (separated_last_lt init l (a :: m) a); [exact Hsep | now left | exact Hok]. }
  destruct (start_of a <=? end_of l) eqn:E; [apply Z.leb_le in E; lia | reflexivity].
Qed.

Lemma merge_loop_twice m : forall init,
  merged_image (init ++ m) ->
  fold_left merge_step (twice m) init = init ++ m.
Proof.
  induction m as [|a m IH]; intros init Him; [now rewrite app_nil_r|].
  cbn [twice fold_left].
  assert (Ha : span_ok a).
  { destruct Him as [Hok _]. apply Forall_app in Hok as [_ Hok].
    now apply Forall_inv in Hok. }
  pose proof (merge_step_apart init a m Him) as H1.
  assert (H2 : merge_step (init ++ [a]) a = init ++ [a]).
  { rewrite merge_step_snoc. apply span_ok_le in Ha.
    destruct (start_of a <=? end_of a) eqn:E1; [|apply Z.leb_gt in E1; lia].
    rewrite Z.ltb_irrefl.
    destruct (end_of a >? end_of a) eqn:E3; [apply Z.gtb_gt in E3; lia | reflexivity]. }
  rewrite H1, H2, IH; rewrite <- app_assoc; [reflexivity | exact Him].
Qed.

Lemma seg_of_chunk_of_span s : span_ok s -> seg_of_chunk (chunk_of_span s) = s.
Proof.
  destruct s as [[st ed] data].
  unfold span_ok, seg_of_chunk, chunk_of_span, start_of, end_of, data_of.
  cbn [fst snd]. intros H. do 2 f_equal. lia.
Qed.

Lemma merge_segs_twice m : merged_image m -> merge_segs (m ++ m) = m.
Proof.
  intros Him. unfold merge_segs, merge_sorted.
  change (m ++ m) with (m ++ [] ++ m).
  rewrite (sort_by_start_twice m [] Him). now apply (merge_loop_twice m []).
Qed.

Lemma merge_loop_id m : forall init,
  merged_image (init ++ m) -> fold_left merge_step m init = init ++ m.
Proof.
  induction m as [|a m IH]; intros init Him; [now rewrite app_nil_r|].
  cbn [fold_left].
  pose proof (merge_step_apart init a m Him) as H1.
  rewrite H1, IH; rewrite <- app_assoc; [reflexivity | exact Him].
Qed.

(** The merged images are exactly what the merger returns: it leaves each
    of them as it is. *)
Lemma merge_chunks_fixed m :
  merged_image m -> merge_chunks (map chunk_of_span m) = m.
Proof.
  intros Him. unfold merge_chunks. rewrite map_map.
  rewrite (map_ext_in _ id), map_id.
  - unfold merge_segs, merge_sorted.
    rewrite sort_by_start_id by now apply merged_image_sorted.
    now apply (merge_loop_id m []).
  - intros s Hs. apply seg_of_chunk_of_span.
    destruct Him as [Hok _]. eapply Forall_forall; eassumption.
Qed.

(** C4: a non-empty merged span list (every span as long as its range,
    each ending strictly before the next starts), fed to the merger as
    chunks together with a second copy of itself, comes out as the very
    same list. *)
Theorem merge_chunks_idempotent (m : list span) :
  merged_image m -> m <> [] ->
  merge_chunks (map chunk_of_span m ++ map chunk_of_span m) = m.
Proof.
  intros Him _.
  unfold merge_chunks. rewrite map_app, map_map.
  rewrite (map_ext_in _ id), map_id.
  - now apply merge_segs_twice.
  - intros s Hs. apply seg_of_chunk_of_span.
    destruct Him as [Hok _]. eapply Forall_forall; eassumption.
Qed.

Lemma merge_chunks_idempotent_witness :
  let m := [(0x100, 0x130, repeat AA 32 ++ repeat BB 16); (0x200, 0x201, [x01])] in
  merge_chunks (map chunk_of_span m ++ map chunk_of_span m) = m.
Proof.
  refine (merge_chunks_idempotent
            [(0x100, 0x130, repeat AA 32 ++ repeat BB 16); (0x200, 0x201, [x01])]
            _ _).
  - split; [repeat constructor|]. simpl. unfold end_of, start_of. simpl. lia.
  - discriminate.
Defined.

(** ** The writer *)

Lemma final_pos_cons pos s rest : final_pos pos (s :: rest) = final_pos (end_of s) rest.
Proof.
  unfold final_pos. destruct rest as [|s0 rest]; [reflexivity|].
  change (Py.last_opt (s :: s0 :: rest)) with (Py.last_opt (s0 :: rest)).
  destruct (Py.last_opt (s0 :: rest)) eqn:E; [reflexivity|].
  apply last_opt_none in E. discriminate.
Qed.

Lemma times_nonpos {A} (b : A) (n : Z) : n <= 0 -> Py.times b n = [].
Proof. intros H. unfold Py.times. now replace (Z.to_nat n) with 0%nat by lia. Qed.

Lemma len_times {A} (b : A) (n : Z) : 0 <= n -> Py.len (Py.times b n) = n.
Proof. intros H. unfold Py.len, Py.times. rewrite repeat_length. lia. Qed.

(** With a pad value that fits a byte the loop cannot fail, and what it
    writes is the layout of the spans. *)
Lemma write_segments_layout pad b :
  byte_of_int pad = Some b ->
  forall segments pos f,
    write_segments pad segments pos f
    = (f ++ layout b pos segments, final_pos pos segments, None).
Proof.
  intros Hb. induction segments as [|[[st ed] data] rest IH]; intros pos f.
  - simpl. now rewrite app_nil_r.
  - cbn [write_segments layout]. rewrite final_pos_cons, Hb.
    unfold start_of, end_of, data_of. cbn [fst snd].
    destruct (st >? pos) eqn:E.
    + rewrite IH. now rewrite <- !app_assoc.
    + rewrite IH. rewrite times_nonpos by (rewrite Z.gtb_ltb in E; apply Z.ltb_ge in E; lia).
      now rewrite <- app_assoc.
Qed.

Lemma merged_image_tail s rest :
  merged_image (s :: rest) ->
  span_ok s /\ merged_image rest /\ starts_from (end_of s) rest.
Proof.
  intros Him. split; [|split].
  - destruct Him as [Hok _]. now apply Forall_inv in Hok.
  - apply (merged_image_app_inv [s] rest Him).
  - intros h Hh. destruct rest as [|h' rest]; [discriminate|].
    injection Hh as ->. destruct Him as [_ [Hlt _]]. lia.
Qed.

Lemma final_pos_ge segments : forall pos,
  merged_image segments -> starts_from pos segments ->
  pos <= final_pos pos segments.
Proof.
  induction segments as [|s rest IH]; intros pos Him Hfrom; [unfold final_pos; simpl; lia|].
  rewrite final_pos_cons.
  destruct (merged_image_tail s rest Him) as (Hs & Hrest & Hnext).
  specialize (IH (end_of s) Hrest Hnext).
  specialize (Hfrom s eq_refl). apply span_ok_le in Hs. lia.
Qed.

Lemma len_layout b segments : forall pos,
  merged_image segments -> starts_from pos segments ->
  Py.len (layout b pos segments) = final_pos pos segments - pos.
Proof.
  induction segments as [|s rest IH]; intros pos Him Hfrom.
  - unfold final_pos. simpl. unfold Py.len. simpl. lia.
  - rewrite final_pos_cons. cbn [layout].
    destruct (merged_image_tail s rest Him) as (Hs & Hrest & Hnext).
    specialize (Hfrom s eq_refl).
    rewrite !len_app, len_times, (IH _ Hrest Hnext) by lia.
    unfold span_ok in Hs. lia.
Qed.

Lemma skipn_past {A} (l r : list A) (n : nat) :
  skipn (length l + n) (l ++ r) = skipn n r.
Proof. induction l; simpl; auto. Qed.

Lemma nth_error_past {A} (l r : list A) (n : nat) :
  nth_error (l ++ r) (length l + n) = nth_error r n.
Proof. induction l; simpl; auto. Qed.

Lemma firstn_exact {A} (l r : list A) : firstn (length l) (l ++ r) = l.
Proof. induction l; simpl; [now destruct r | now f_equal]. Qed.

(** The bytes of each span sit at its offset in the layout. *)
Lemma layout_span b segments : forall pos s,
  merged_image segments -> starts_from pos segments -> In s segments ->
  firstn (length (data_of s))
         (skipn (Z.to_nat (start_of s - pos)) (layout b pos segments))
  = data_of s.
Proof.
  induction segments as [|s0 rest IH]; intros pos s Him Hfrom Hin; [contradiction|].
  destruct (merged_image_tail s0 rest Him) as (Hs0 & Hrest & Hnext).
  specialize (Hfrom s0 eq_refl). cbn [layout].
  destruct Hin as [->|Hin].
  - replace (Z.to_nat (start_of s - pos))
      with (length (Py.times b (start_of s - pos)) + 0)%nat
      by (unfold Py.times; rewrite repeat_length; lia).
    rewrite skipn_past. simpl skipn. apply firstn_exact.
  - assert (Hlt : end_of s0 < start_of s).
    { destruct Him as [Hok Hsep]. exact (separated_last_lt [] s0 rest s Hsep Hin Hok). }
    replace (Z.to_nat (start_of s - pos))
      with (length (Py.times b (start_of s0 - pos))
            + (length (data_of s0) + Z.to_nat (start_of s - end_of s0)))%nat.
    + rewrite !skipn_past. now apply IH.
    + unfold Py.times. rewrite repeat_length.
      unfold span_ok, Py.len in Hs0. lia.
Qed.

(** Every address of the image outside the spans holds the pad byte. *)
Lemma layout_pad b segments : forall pos a,
  merged_image segments -> starts_from pos segments ->
  pos <= a < final_pos pos segments -> ~ covered segments a ->
  nth_error (layout b pos segments) (Z.to_nat (a - pos)) = Some b.
Proof.
  induction segments as [|s0 rest IH]; intros pos a Him Hfrom Ha Hnc.
  - unfold final_pos in Ha. simpl in Ha. lia.
  - destruct (merged_image_tail s0 rest Him) as (Hs0 & Hrest & Hnext).
    specialize (Hfrom s0 eq_refl). rewrite final_pos_cons in Ha. cbn [layout].
    assert (Hout : a < start_of s0 \/ end_of s0 <= a).
    { destruct (Z_lt_ge_dec a (start_of s0)) as [?|?]; [now left|].
      destruct (Z_lt_ge_dec a (end_of s0)) as [?|?]; [|right; lia].
      exfalso. apply Hnc. exists s0. split; [now left | lia]. }
    destruct Hout as [Hbefore|Hafter].
    + rewrite nth_error_app1
        by (unfold Py.times; rewrite repeat_length; lia).
      unfold Py.times. apply nth_error_repeat. lia.
    + replace (Z.to_nat (a - pos))
        with (length (Py.times b (start_of s0 - pos))
              + (length (data_of s0) + Z.to_nat (a - end_of s0)))%nat.
      * rewrite !nth_error_past. apply IH; try assumption; [lia|].
        intros (s & Hs & Hr). apply Hnc. exists s. split; [now right | exact Hr].
      * unfold Py.times. rewrite repeat_length.
        unfold span_ok, Py.len in Hs0. lia.
Qed.

(** [l[lo:hi]] for bounds inside the sequence. *)
Lemma slice_range {A} (l : list A) (lo hi : Z) :
  0 <= lo <= hi -> hi <= Py.len l ->
  Py.slice l (Some lo) (Some hi)
  = firstn (Z.to_nat (hi - lo)) (skipn (Z.to_nat lo) l).
Proof.
  intros H1 H2. unfold Py.slice, Py.clamp.
  destruct (lo <? 0) eqn:E1; [lia|]. destruct (hi <? 0) eqn:E2; [lia|].
  now rewrite !Z.min_l by lia.
Qed.

(** What [write_bin] does on a non-empty merged image. *)
Lemma write_bin_merged segments base_addr pad b first last :
  merged_image segments ->
  hd_error segments = Some first -> Py.last_opt segments = Some last ->
  byte_of_int pad = Some b ->
  let start := Z.min (start_of first) base_addr in
  write_bin segments base_addr pad
  = {| out_file := layout b start segments;
       out_log := [ReportRange start (end_of last) (end_of last - start);
                   ReportDone (end_of last - start)];
       out_raised := None |}.
Proof.
  intros Him Hfirst Hlast Hb start.
  assert (Hfrom : starts_from start segments).
  { intros h Hh. rewrite Hfirst in Hh. injection Hh as <-. subst start. lia. }
  pose proof (len_layout b segments start Him Hfrom) as Hlen.
  unfold write_bin.
  destruct segments as [|[[st ed] data] rest]; [discriminate|].
  rewrite Hlast.
  injection Hfirst as <-. destruct last as [[lst led] ldata].
  unfold start_of, end_of in *. cbn [fst snd] in *. fold start.
  rewrite (write_segments_layout pad b Hb). cbn [app].
  unfold final_pos in *. rewrite Hlast in *. unfold end_of in *. cbn [fst snd] in *.
  rewrite Z.ltb_irrefl. now rewrite Hlen.
Qed.

Lemma merged_image_first_le segments first s :
  merged_image segments -> hd_error segments = Some first -> In s segments ->
  start_of first <= start_of s.
Proof.
  intros Him Hfirst Hin. destruct segments as [|s0 rest]; [discriminate|].
  injection Hfirst as ->. apply merged_image_sorted, StronglySorted_inv in Him.
  destruct Hin as [->|Hin]; [lia|].
  destruct Him as [_ Hall]. exact (proj1 (Forall_forall _ _) Hall s Hin).
Qed.

Lemma merged_image_end_le segments : forall pos s,
  merged_image segments -> In s segments ->
  end_of s <= final_pos pos segments.
Proof.
  induction segments as [|s0 rest IH]; intros pos s Him Hin; [contradiction|].
  destruct (merged_image_tail s0 rest Him) as (Hs0 & Hrest & Hnext).
  rewrite final_pos_cons. destruct Hin as [->|Hin].
  - now apply final_pos_ge.
  - now apply IH.
Qed.

(** C5: on a non-empty merged image the writer produces a buffer of length
    [last.end - min(first.start, base_addr)]; each span's bytes sit at
    offsets [span.start - start, span.end - start), and every address
    outside the spans (the prefix before the first span and the gaps)
    holds the pad byte. *)
Theorem write_bin_image segments base_addr pad b first last :
  merged_image segments ->
  hd_error segments = Some first -> Py.last_opt segments = Some last ->
  byte_of_int pad = Some b ->
  let start := Z.min (start_of first) base_addr in
  let w := write_bin segments base_addr pad in
  out_raised w = None
  /\ Py.len (out_file w) = end_of last - start
  /\ (forall s, In s segments ->
        Py.slice (out_file w) (Some (start_of s - start)) (Some (end_of s - start))
        = data_of s)
  /\ (forall a, start <= a < end_of last -> ~ covered segments a ->
        nth_error (out_file w) (Z.to_nat (a - start)) = Some b).
Proof.
  intros Him Hfirst Hlast Hb start w. subst w.
  rewrite (write_bin_merged segments base_addr pad b first last Him Hfirst Hlast Hb).
  fold start. cbn [out_file out_raised].
  assert (Hfrom : starts_from start segments).
  { intros h Hh. rewrite Hfirst in Hh. injection Hh as <-. subst start. lia. }
  assert (Hfin : final_pos start segments = end_of last).
  { unfold final_pos. now rewrite Hlast. }
  pose proof (len_layout b segments start Him Hfrom) as Hlen.
  rewrite Hfin in Hlen.
  split; [reflexivity|]. split; [exact Hlen|]. split.
  - intros s Hs.
    pose proof (merged_image_first_le segments first s Him Hfirst Hs) as H1.
    pose proof (merged_image_end_le segments start s Him Hs) as H2.
    rewrite Hfin in H2.
    assert (Hok : span_ok s).
    { destruct Him as [Hok _]. exact (proj1 (Forall_forall _ _) Hok s Hs). }
    pose proof (span_ok_le s Hok) as H3.
    rewrite slice_range by (subst start; lia).
    replace (Z.to_nat (end_of s - start - (start_of s - start)))
      with (length (data_of s)) by (unfold span_ok, Py.len in Hok; lia).
    now apply layout_span.
  - intros a Ha Hnc. apply layout_pad; try assumption. now rewrite Hfin.
Qed.

Lemma write_bin_image_witness :
  let segments := [(0x08000004, 0x08000006, [x01; x02]); (0x08000008, 0x08000009, [x03])] in
  let w := write_bin segments 0x08000000 0xFF in
  out_file w = [xff; xff; xff; xff; x01; x02; xff; xff; x03]
  /\ out_raised w = None
  /\ Py.len (out_file w) = 0x08000009 - 0x08000000
  /\ (forall s, In s segments ->
        Py.slice (out_file w) (Some (start_of s - 0x08000000))
                 (Some (end_of s - 0x08000000)) = data_of s)
  /\ (forall a, 0x08000000 <= a < 0x08000009 -> ~ covered segments a ->
        nth_error (out_file w) (Z.to_nat (a - 0x08000000)) = Some xff).
Proof.
  split; [reflexivity|].
  refine (write_bin_image
            [(0x08000004, 0x08000006, [x01; x02]); (0x08000008, 0x08000009, [x03])]
            0x08000000 0xFF xff (0x08000004, 0x08000006, [x01; x02])
            (0x08000008, 0x08000009, [x03]) _ eq_refl eq_refl eq_refl).
  split.
  - repeat constructor.
  - simpl. unfold end_of, start_of. simpl. lia.
Defined.

(** C8, as stated, fails: with the base address past all data the writer
    neither fails nor writes an empty file. *)
Lemma base_past_data_not_empty :
  let segments := [(0x100, 0x102, [x01; x02])] in
  let w := write_bin segments 0x200 0xFF in
  0x200 > 0x102
  /\ ~ (out_file w = [] \/ out_raised w <> None \/ In WarnNoData (out_log w)).
Proof.
  split; [reflexivity|].
  intros [H|[H|H]].
  - discriminate H.
  - now apply H.
  - simpl in H. destruct H as [H|[H|[]]]; discriminate H.
Qed.

(** C8, amended: with the base address past all data of a non-empty merged
    image, and a pad value in [range(256)], the writer ignores the base
    address: the image starts at the first span, nothing is padded in
    front, the size [last.end - first.start] is not negative, nothing is
    raised and no warning is printed. *)
Theorem write_bin_base_past_data segments base_addr pad b first last :
  merged_image segments ->
  hd_error segments = Some first -> Py.last_opt segments = Some last ->
  byte_of_int pad = Some b ->
  base_addr > end_of last ->
  write_bin segments base_addr pad = write_bin segments (start_of first) pad
  /\ write_bin segments base_addr pad
     = {| out_file := layout b (start_of first) segments;
          out_log := [ReportRange (start_of first) (end_of last)
                                  (end_of last - start_of first);
                      ReportDone (end_of last - start_of first)];
          out_raised := None |}
  /\ Py.len (layout b (start_of first) segments) = end_of last - start_of first
  /\ 0 <= end_of last - start_of first.
Proof.
  intros Him Hfirst Hlast Hb Hbase.
  assert (Hin : In last segments).
  { clear - Hlast. destruct segments as [|x l _] using rev_ind; [discriminate|].
    rewrite last_opt_snoc in Hlast. injection Hlast as ->.
    apply in_or_app. right. now left. }
  pose proof (merged_image_first_le segments first last Him Hfirst Hin) as H1.
  assert (H2 : span_ok last).
  { destruct Him as [Hok _]. exact (proj1 (Forall_forall _ _) Hok last Hin). }
  apply span_ok_le in H2.
  rewrite !(write_bin_merged segments _ pad b first last Him Hfirst Hlast Hb).
  rewrite Z.min_id, Z.min_l by lia.
  repeat split; [|lia].
  assert (Hfrom : starts_from (start_of first) segments).
  { intros h Hh. rewrite Hfirst in Hh. injection Hh as <-. lia. }
  rewrite (len_layout b segments _ Him Hfrom). unfold final_pos. now rewrite Hlast.
Qed.

Lemma write_bin_base_past_data_witness :
  let segments := [(0x100, 0x102, [x01; x02]); (0x104, 0x105, [x03])] in
  write_bin segments 0x200 0xFF = write_bin segments 0x100 0xFF
  /\ write_bin segments 0x200 0xFF
     = {| out_file := [x01; x02; xff; xff; x03];
          out_log := [ReportRange 0x100 0x105 5; ReportDone 5];
          out_raised := None |}
  /\ Py.len (layout xff 0x100 segments) = 5
  /\ 0 <= 5.
Proof.
  refine (write_bin_base_past_data
            [(0x100, 0x102, [x01; x02]); (0x104, 0x105, [x03])]
            0x200 0xFF xff (0x100, 0x102, [x01; x02]) (0x104, 0x105, [x03])
            _ eq_refl eq_refl eq_refl eq_refl).
  split.
  - repeat constructor.
  - simpl. unfold end_of, start_of. simpl. lia.
Defined.

(** C9: on the empty span list the writer writes a zero-length file,
    raises nothing, and prints the no-data warning; that warning is
    printed for no other input. *)
Theorem write_bin_no_data (segments : list span) (base_addr pad : Z) :
  write_bin [] base_addr pad
  = {| out_file := []; out_log := [WarnNoData]; out_raised := None |}
  /\ (In WarnNoData (out_log (write_bin segments base_addr pad)) <-> segments = []).
Proof.
  split; [reflexivity|]. split.
  - destruct segments as [|[[st ed] data] rest]; [reflexivity|].
    unfold write_bin.
    destruct (Py.last_opt _) as [[[lst led] ldata]|] eqn:E.
    + destruct (write_segments _ _ _ _) as [[f pos] [e|]].
      * simpl. intros [H|[]]. discriminate H.
      * destruct (pos <? led); [destruct (byte_of_int pad)|]; simpl; intros H;
          repeat (destruct H as [H|H]; [discriminate H|]); destruct H.
    + apply last_opt_none in E. discriminate.
  - intros ->. simpl. now left.
Qed.

(** ** The HEX reader *)

Example int16_examples :
  map int16 [line "0A"; line "+100"; line "-100"; line "0x1F"; line "1_00";
             line " 1"; line "1 "; line "_100"; line "100_"; line "1__0";
             line "0x"; line "+ 1"; line "G0"; line ""]
  = [Some 10; Some 256; Some (-256); Some 31; Some 256;
     Some 1; Some 1; None; None; None;
     None; None; None; None].
Proof. reflexivity. Qed.

Example fromhex_examples :
  map fromhex [line "AA"; line "aabb"; line "AA BB"; line "A"; line "A A"; line "zz"; line ""]
  = [Some [xaa]; Some [xaa; xbb]; Some [xaa; xbb]; None; None; None; Some []].
Proof. reflexivity. Qed.

Lemma read_hex_lines_app pre : forall ext ext' post,
  ext_after ext pre = Some ext' ->
  read_hex_lines ext (pre ++ post)
  = (fst (read_hex_lines ext pre) ++ fst (read_hex_lines ext' post),
     snd (read_hex_lines ext' post)).
Proof.
  induction pre as [|raw pre IH]; intros ext ext' post H.
  - injection H as <-. simpl. now destruct (read_hex_lines ext post).
  - cbn [ext_after] in H. cbn [app read_hex_lines].
    destruct (hex_line ext raw) as [|c|e'| |e]; try discriminate;
      rewrite (IH _ _ post H); try reflexivity.
    now destruct (read_hex_lines ext pre).
Qed.






(** The record [:02000004080000F2] followed by any data record at offset
    0x0010 yields one chunk, at 0x08000010. *)
Lemma ela_08000000_then_data (dat : text) (count : Z) (d : bytes) :
  parse_line dat = Record count 0x0010 0x00 d ->
  read_hex_lines 0 [line ":02000004080000F2"; dat] = ([(0x08000010, d)], None).
Proof.
  intros Hdat. cbn [read_hex_lines].
  change (hex_line 0 (line ":02000004080000F2")) with (SetBase 0x08000000).
  unfold hex_line. now rewrite Hdat.
Qed.

(** ** Which characters [int(s, 16)] tolerates *)

Lemma skip_spaces_chars s c :
  In c s -> In c (skip_spaces s) \/ is_c_space c = true.
Proof.
  induction s as [|x s IH]; [contradiction|].
  cbn [skip_spaces]. destruct (is_c_space x) eqn:E.
  - intros [->|H]; [now right | now apply IH].
  - now left.
Qed.

Lemma take_sign_chars s c :
  In c s -> In c (snd (take_sign s)) \/ c = "+"%char \/ c = "-"%char.
Proof.
  destruct s as [|x s]; [contradiction|]. unfold take_sign.
  destruct (x =? "+")%char eqn:E1; [|destruct (x =? "-")%char eqn:E2].
  - apply Ascii.eqb_eq in E1. intros [<-|H]; [right; now left | now left].
  - apply Ascii.eqb_eq in E2. intros [<-|H]; [right; now right | now left].
  - now left.
Qed.

Lemma skip_prefix16_chars s c :
  In c s -> In c (skip_prefix16 s) \/ int16_char c = true.
Proof.
  destruct s as [|c0 [|x r]]; try now left.
  unfold skip_prefix16.
  destruct ((c0 =? "0")%char && ((x =? "x")%char || (x =? "X")%char)) eqn:E;
    [|now left].
  apply andb_true_iff in E as [E0 Ex]. apply Ascii.eqb_eq in E0. subst c0.
  assert (Hx : int16_char x = true).
  { unfold int16_char. apply orb_true_iff in Ex as [->| ->];
      rewrite ?orb_true_r; reflexivity. }
  intros [<-|[<-|H]]; [now right | now right |].
  destruct r as [|u r']; [contradiction|].
  destruct (u =? "_")%char eqn:Eu; [|now left].
  apply Ascii.eqb_eq in Eu. subst u.
  destruct H as [<-|H]; [now right | now left].
Qed.

Lemma scan_digits_chars s : forall prev_us acc v rest c,
  scan_digits 16 s prev_us acc = Some (v, rest) ->
  In c s -> In c rest \/ int16_char c = true.
Proof.
  induction s as [|x s IH]; intros prev_us acc v rest c Hscan Hin; [contradiction|].
  cbn [scan_digits] in Hscan.
  destruct (digit_value x <? 16) eqn:Ed.
  - destruct Hin as [<-|Hin]; [|eauto].
    right. unfold int16_char. now rewrite Ed, orb_true_r.
  - destruct (x =? "_")%char eqn:Eu.
    + destruct prev_us; [discriminate|].
      destruct Hin as [<-|Hin]; [|eauto].
      right. apply Ascii.eqb_eq in Eu. now subst.
    + destruct prev_us; [discriminate|].
      injection Hscan as _ <-. now left.
Qed.

Lemma skip_spaces_nil s c : skip_spaces s = [] -> In c s -> is_c_space c = true.
Proof.
  intros Hnil Hin. destruct (skip_spaces_chars s c Hin) as [H|H]; [|exact H].
  rewrite Hnil in H. contradiction.
Qed.

Lemma c_space_int16_char c : is_c_space c = true -> int16_char c = true.
Proof. unfold int16_char. now intros ->. Qed.

(** Whatever [int(s, 16)] accepts is made of hexadecimal digits, signs,
    underscores, [x]/[X] and whitespace. *)
Lemma int16_chars s v c : int16 s = Some v -> In c s -> int16_char c = true.
Proof.
  unfold int16. intros H Hin.
  destruct (skip_spaces_chars s c Hin) as [Hin1|Hsp];
    [|now apply c_space_int16_char].
  apply take_sign_chars in Hin1.
  destruct (take_sign (skip_spaces s)) as [sign s2]. cbn [snd] in Hin1.
  destruct Hin1 as [Hin2|[->| ->]]; [|reflexivity|reflexivity].
  destruct (skip_prefix16_chars s2 c Hin2) as [Hin3|Hok]; [|exact Hok].
  destruct (skip_prefix16 s2) as [|c3 s3] eqn:E3; [discriminate|].
  destruct (c3 =? "_")%char; [discriminate|].
  destruct (scan_digits 16 (c3 :: s3) false 0) as [[v' rest]|] eqn:Escan;
    [|discriminate].
  destruct (length rest =? length (c3 :: s3))%nat; [discriminate|].
  destruct (skip_spaces rest) eqn:Erest; [|discriminate].
  destruct (scan_digits_chars _ _ _ _ _ c Escan Hin3) as [Hr|Hok]; [|exact Hok].
  apply c_space_int16_char. eapply skip_spaces_nil; eassumption.
Qed.

Lemma int16_bad_char s c : In c s -> int16_char c = false -> int16 s = None.
Proof.
  intros Hin Hbad. destruct (int16 s) as [v|] eqn:E; [|reflexivity].
  rewrite (int16_chars s v c E Hin) in Hbad. discriminate.
Qed.

(** C10, as stated, fails: the address field [+100] of this line holds a
    character that is no hexadecimal digit, and the decoder yields a
    chunk for the line instead of raising. *)
Lemma signed_address_field_accepted :
  let raw := line ":01+10000AA" in
  hd_error (strip raw) = Some ":"%char
  /\ Py.slice (strip raw) (Some 3) (Some 7) = line "+100"
  /\ (digit_value "+"%char <? 16) = false
  /\ read_hex_lines 0 [raw] = ([(0x100, [xaa])], None).
Proof. repeat split. Qed.

(** C10, amended: when a line starts with [:] and its byte-count, address
    or record-type field holds a character that is none of a hexadecimal
    digit, a sign, an underscore, [x] or [X], or whitespace, the decoder
    raises [ValueError] on reaching the line: it yields no chunk for it
    and reads no further line. *)
Theorem bad_field_char_raises
    (pre post : list text) (raw : text) (ext : Z) (c : ascii) :
  ext_after 0 pre = Some ext ->
  hd_error (strip raw) = Some ":"%char ->
  In c (Py.slice (strip raw) (Some 1) (Some 3))
  \/ In c (Py.slice (strip raw) (Some 3) (Some 7))
  \/ In c (Py.slice (strip raw) (Some 7) (Some 9)) ->
  int16_char c = false ->
  parse_line raw = Malformed ValueError
  /\ hex_line ext raw = Raise ValueError
  /\ read_hex_lines 0 (pre ++ raw :: post)
     = (fst (read_hex_lines 0 pre), Some ValueError).
Proof.
  intros Hpre Hhd Hin Hbad.
  assert (Hparse : parse_line raw = Malformed ValueError).
  { unfold parse_line. destruct (strip raw) as [|c0 l] eqn:Es; [discriminate|].
    injection Hhd as ->. cbn [Ascii.eqb Bool.eqb negb andb].
    destruct Hin as [H|[H|H]].
    - now rewrite (int16_bad_char _ c H Hbad).
    - destruct (int16 (Py.slice _ (Some 1) (Some 3))); [|reflexivity].
      now rewrite (int16_bad_char _ c H Hbad).
    - destruct (int16 (Py.slice _ (Some 1) (Some 3))); [|reflexivity].
      destruct (int16 (Py.slice _ (Some 3) (Some 7))); [|reflexivity].
      now rewrite (int16_bad_char _ c H Hbad). }
  assert (Hline : hex_line ext raw = Raise ValueError).
  { unfold hex_line. now rewrite Hparse. }
  repeat split; [exact Hparse | exact Hline |].
  rewrite (read_hex_lines_app pre 0 ext _ Hpre). cbn [read_hex_lines].
  rewrite Hline. cbn [fst snd]. now rewrite app_nil_r.
Qed.

Lemma bad_field_char_raises_witness :
  let dat := line ":0400100001020304E2" in
  let raw := line ":01G10000AA" in
  parse_line raw = Malformed ValueError
  /\ hex_line 0 raw = Raise ValueError
  /\ read_hex_lines 0 ([dat] ++ raw :: [dat])
     = (fst (read_hex_lines 0 [dat]), Some ValueError).
Proof.
  refine (bad_field_char_raises [line ":0400100001020304E2"]
            [line ":0400100001020304E2"] (line ":01G10000AA") 0 "G"%char
            eq_refl eq_refl _ eq_refl).
  right. left. simpl. now left.
Defined.

(** ** Collecting the inputs *)

Example demo_run :
  main demo_env ["app.hex"; "boot.bin@0x08000000"]%string 0x08000000 0xFF
  = {| status := 0;
       output := Some ([xaa; xbb] ++ repeat x00 14 ++ repeat xff 16 ++ [xcc; xdd]);
       printed := [ReportRange 0x08000000 0x08000022 34; ReportDone 34] |}.
Proof. reflexivity. Qed.

(** One binary input alone, loaded at the base address, comes out as it is. *)
Example demo_boot_only :
  main demo_env ["boot.bin@0x08000000"]%string 0x08000000 0xFF
  = {| status := 0; output := Some (repeat x00 16);
       printed := [ReportRange 0x08000000 0x08000010 16; ReportDone 16] |}.
Proof. reflexivity. Qed.

(** A missing file is skipped before its type is looked at. *)
Example demo_missing_bin :
  main demo_env ["missing.bin"]%string 0x08000000 0xFF
  = {| status := 0; output := Some [];
       printed := [SkipMissing "missing.bin"; WarnNoData] |}.
Proof. reflexivity. Qed.

Lemma load_items_app E pre : forall post st st',
  load_items E pre st = (st', None) ->
  load_items E (pre ++ post) st = load_items E post st'.
Proof.
  induction pre as [|item pre IH]; intros post st st' H.
  - now injection H as <-.
  - cbn [load_items app] in *.
    destruct (load_item E st item) as [st1 [s|]]; [discriminate|].
    now apply IH.
Qed.

(** C7: when the run reaches an existing [.bin] input given without
    [@addr], it prints the error and exits with status 1: nothing is
    loaded from the file, the remaining inputs are not read and no output
    is written.  Given as [path@addr], an existing [.bin] file contributes
    exactly one chunk, [(addr, whole contents)]. *)
Theorem bin_input_needs_address
    (E : env) (pre post : list string) (item : string)
    (segs : list span) (log : list message) (base pad : Z) :
  load_items E pre ([], []) = ((segs, log), None) ->
  (rsplit_at item = None ->
   lookup E item <> Absent ->
   suffix_lower E item = ".bin"%string ->
   load_items E (pre ++ item :: post) ([], [])
   = ((segs, log ++ [ErrNoAddress item]), Some (Exited 1))
   /\ collect_segments E (pre ++ item :: post)
      = (inr (Exited 1), log ++ [ErrNoAddress item])
   /\ status (main E (pre ++ item :: post) base pad) = 1
   /\ output (main E (pre ++ item :: post) base pad) = None)
  /\ (forall (path_str addr_str : string) (a : Z) (content : bytes),
        rsplit_at item = Some (path_str, addr_str) ->
        int_auto E addr_str = Some a ->
        lookup E path_str = File content ->
        suffix_lower E path_str = ".bin"%string ->
        read_bin content a = [(a, content)]
        /\ load_items E (pre ++ [item]) ([], [])
           = ((segs ++ [(a, a + Py.len content, content)], log), None)).
Proof.
  intros Hpre. split.
  - intros Hsplit Hfound Hsuf.
    assert (Hload : load_items E (pre ++ item :: post) ([], [])
                    = ((segs, log ++ [ErrNoAddress item]), Some (Exited 1))).
    { rewrite (load_items_app E pre _ _ _ Hpre). cbn [load_items].
      unfold load_item, load_path. rewrite Hsplit, Hsuf. cbn [String.eqb Ascii.eqb Bool.eqb].
      destruct (lookup E item); [now contradiction Hfound | reflexivity | reflexivity]. }
    assert (Hcol : collect_segments E (pre ++ item :: post)
                   = (inr (Exited 1), log ++ [ErrNoAddress item])).
    { unfold collect_segments. now rewrite Hload. }
    repeat split; [exact Hload | exact Hcol | |]; unfold main; now rewrite Hcol.
  - intros path_str addr_str a content Hsplit Hint Hfile Hsuf.
    split; [reflexivity|].
    rewrite (load_items_app E pre _ _ _ Hpre). cbn [load_items].
    unfold load_item, load_path. rewrite Hsplit, Hint, Hfile, Hsuf.
    reflexivity.
Qed.

Lemma bin_input_needs_address_witness :
  (collect_segments demo_env ["app.hex"; "boot.bin"; "boot.bin@0x08000000"]%string
   = (inr (Exited 1), [ErrNoAddress "boot.bin"])
   /\ status (main demo_env ["app.hex"; "boot.bin"; "boot.bin@0x08000000"]%string
                   0x08000000 0xFF) = 1)
  /\ load_items demo_env ["app.hex"; "boot.bin@0x08000000"]%string ([], [])
     = (([(0x08000000, 0x08000002, [xaa; xbb]); (0x08000020, 0x08000022, [xcc; xdd]);
          (0x08000000, 0x08000010, repeat x00 16)], []), None).
Proof.
  split.
  - pose proof (proj1 (bin_input_needs_address demo_env ["app.hex"%string]
                         ["boot.bin@0x08000000"%string] "boot.bin"%string
                         _ _ 0x08000000 0xFF eq_refl)
                  eq_refl ltac:(discriminate) eq_refl) as (_ & Hcol & Hst & _).
    split; [exact Hcol | exact Hst].
  - exact (proj2 (proj2 (bin_input_needs_address demo_env ["app.hex"%string] []
                           "boot.bin@0x08000000"%string _ _ 0 0 eq_refl)
                    "boot.bin"%string "0x08000000"%string 0x08000000 (repeat x00 16)
                    eq_refl eq_refl eq_refl eq_refl)).
Defined.

(** Every segment the loop collects is built from a chunk, so what
    [collect_segments] returns is a merged image. *)
Lemma load_item_ok E st item st' s :
  Forall span_ok (fst st) -> load_item E st item = (st', s) ->
  Forall span_ok (fst st').
Proof.
  intros Hok. unfold load_item. destruct st as [segs log].
  cbn [fst] in Hok.
  assert (Hmap : forall cs, Forall span_ok (segs ++ map seg_of_chunk cs)).
  { intros cs. apply Forall_app. split; [exact Hok|].
    apply Forall_forall. intros x Hx. apply in_map_iff in Hx as (c & <- & _).
    apply seg_of_chunk_ok. }
  assert (Hpath : forall p load_addr,
             load_path E (segs, log) p load_addr = (st', s) ->
             Forall span_ok (fst st')).
  { intros p load_addr. unfold load_path.
    destruct (lookup E p) as [| |content];
      [now intros [= <- <-] | |];
      (destruct (suffix_lower E p =? ".hex")%string;
       [|destruct (suffix_lower E p =? ".bin")%string; [destruct load_addr as [a|]|]]);
      try (now intros [= <- <-]).
    - destruct (read_hex_records content) as [cs e]. intros [= <- <-]. apply Hmap.
    - intros [= <- <-]. apply (Hmap (read_bin content a)). }
  destruct (rsplit_at item) as [[path_str addr_str]|]; [|apply Hpath].
  destruct (int_auto E addr_str) as [a|]; [apply Hpath|].
  now intros [= <- <-].
Qed.

Lemma load_items_ok E file_list : forall st st' s,
  Forall span_ok (fst st) -> load_items E file_list st = (st', s) ->
  Forall span_ok (fst st').
Proof.
  induction file_list as [|item rest IH]; intros st st' s Hok H.
  - now injection H as <- <-.
  - cbn [load_items] in H.
    destruct (load_item E st item) as [st1 [s1|]] eqn:E1.
    + injection H as <- <-. eapply load_item_ok; eassumption.
    + eapply IH; [|exact H]. eapply load_item_ok; eassumption.
Qed.

Lemma collect_segments_image E file_list m log :
  collect_segments E file_list = (inl m, log) -> merged_image m.
Proof.
  unfold collect_segments.
  destruct (load_items E file_list ([], [])) as [[segs log'] [s|]] eqn:Eload;
    [discriminate|].
  intros [= <- <-]. apply merge_segs_image.
  apply (load_items_ok E file_list ([], []) _ _ (Forall_nil _) Eload).
Qed.

(** * Further properties *)

(** ** Which bytes the merger keeps *)

Lemma find_app_first {A} (f : A -> bool) (l r : list A) :
  find f (l ++ r) = match find f l with Some x => Some x | None => find f r end.
Proof. induction l as [|x l IH]; simpl; [reflexivity|]. now destruct (f x). Qed.

Lemma covers_iff s a : covers s a = true <-> start_of s <= a < end_of s.
Proof. unfold covers. rewrite andb_true_iff, Z.leb_le, Z.ltb_lt. tauto. Qed.

(** A span with as many bytes as addresses has a byte for each of them. *)
Lemma span_ok_byte s a :
  span_ok s -> covers s a = true ->
  exists b, nth_error (data_of s) (Z.to_nat (a - start_of s)) = Some b.
Proof.
  intros Hok Hc. apply covers_iff in Hc.
  destruct (nth_error (data_of s) (Z.to_nat (a - start_of s))) as [b|] eqn:E; [eauto|].
  apply nth_error_None in E. unfold span_ok, Py.len in Hok. lia.
Qed.

Lemma byte_at_none l a :
  Forall span_ok l -> (byte_at l a = None <-> owner l a = None).
Proof.
  intros Hok. unfold byte_at. destruct (owner l a) as [s|] eqn:E; [|tauto].
  apply find_some in E as [Hin Hc].
  destruct (span_ok_byte s a (proj1 (Forall_forall _ _) Hok s Hin) Hc) as [b ->].
  split; discriminate.
Qed.

Lemma byte_at_app l r a :
  Forall span_ok l ->
  byte_at (l ++ r) a
  = match byte_at l a with Some b => Some b | None => byte_at r a end.
Proof.
  intros Hok. destruct (byte_at l a) as [b|] eqn:E.
  - unfold byte_at in *. unfold owner in *. rewrite find_app_first.
    now destruct (find _ l).
  - apply (byte_at_none l a Hok) in E. unfold byte_at, owner in *.
    now rewrite find_app_first, E.
Qed.

Lemma byte_at_single s a :
  byte_at [s] a
  = if covers s a then nth_error (data_of s) (Z.to_nat (a - start_of s)) else None.
Proof. unfold byte_at, owner. simpl. now destruct (covers s a). Qed.

(** One step of the loop gives every address the byte it had, and the
    addresses that are new the byte of the incoming segment. *)
Lemma merge_step_byte_at merged seg a :
  merged_image merged -> span_ok seg ->
  last_start_le merged (start_of seg) ->
  byte_at (merge_step merged seg) a = byte_at (merged ++ [seg]) a.
Proof.
  intros [Hok Hsep] Hseg Hlast.
  destruct merged as [|l init _] using rev_ind; [now rewrite merge_step_nil|].
  specialize (Hlast l (last_opt_snoc _ _)).
  apply Forall_app in Hok as [Hinit Hl]. apply Forall_inv in Hl.
  pose proof (span_ok_le l Hl) as Hle. pose proof (span_ok_le seg Hseg) as Hse.
  rewrite merge_step_snoc.
  destruct (start_of seg <=? end_of l) eqn:E1; [|reflexivity].
  apply Z.leb_le in E1.
  destruct (start_of seg <? start_of l) eqn:E2; [apply Z.ltb_lt in E2; lia|].
  rewrite <- app_assoc.
  destruct (end_of seg >? end_of l) eqn:E3;
    rewrite !(byte_at_app init) by exact Hinit;
    (destruct (byte_at init a); [reflexivity|]);
    rewrite (byte_at_app [l]) by (constructor; [exact Hl | constructor]);
    rewrite !byte_at_single.
  - apply Z.gtb_gt in E3. rewrite Z.max_l by lia.
    unfold covers at 1. cbn [start_of end_of data_of fst snd].
    destruct (covers l a) eqn:Cl.
    + apply covers_iff in Cl.
      destruct (span_ok_byte l a Hl (proj2 (covers_iff l a) Cl)) as [b Hb].
      rewrite Hb.
      replace ((start_of l <=? a) && (a <? end_of seg)) with true
        by (symmetry; apply andb_true_iff; rewrite Z.leb_le, Z.ltb_lt; lia).
      rewrite nth_error_app1; [exact Hb|].
      unfold span_ok, Py.len in Hl. lia.
    + assert (Hout : a < start_of l \/ end_of l <= a).
      { unfold covers in Cl. apply andb_false_iff in Cl.
        rewrite Z.leb_gt, Z.ltb_ge in Cl. lia. }
      destruct (covers seg a) eqn:Cs.
      * apply covers_iff in Cs.
        replace ((start_of l <=? a) && (a <? end_of seg)) with true
          by (symmetry; apply andb_true_iff; rewrite Z.leb_le, Z.ltb_lt; lia).
        rewrite nth_error_app2 by (unfold span_ok, Py.len in Hl; lia).
        rewrite slice_from by (unfold span_ok in Hseg; lia).
        rewrite nth_error_skipn. f_equal.
        unfold span_ok, Py.len in Hl. lia.
      * replace ((start_of l <=? a) && (a <? end_of seg)) with false; [reflexivity|].
        symmetry. apply andb_false_iff. rewrite Z.leb_gt, Z.ltb_ge.
        unfold covers in Cs. apply andb_false_iff in Cs.
        rewrite Z.leb_gt, Z.ltb_ge in Cs. lia.
  - rewrite Z.gtb_ltb in E3. apply Z.ltb_ge in E3.
    destruct (covers l a) eqn:Cl.
    + destruct (span_ok_byte l a Hl Cl) as [b Hb]. now rewrite Hb.
    + replace (covers seg a) with false; [reflexivity|].
      symmetry. unfold covers in *. apply andb_false_iff in Cl.
      apply andb_false_iff. rewrite Z.leb_gt, Z.ltb_ge in *. lia.
Qed.

Lemma merge_loop_byte_at a segs : forall merged,
  StronglySorted le_start segs -> Forall span_ok segs ->
  merged_image merged ->
  Forall (fun s => last_start_le merged (start_of s)) segs ->
  byte_at (fold_left merge_step segs merged) a = byte_at (merged ++ segs) a.
Proof.
  induction segs as [|seg segs IH]; intros merged Hs Hok Hm Hl;
    [now rewrite app_nil_r|].
  apply StronglySorted_inv in Hs as [Hs Hseg].
  apply Forall_inv_tail in Hok as Hok'. apply Forall_inv in Hok.
  apply Forall_inv_tail in Hl as Hl'. apply Forall_inv in Hl.
  destruct (merge_step_inv merged seg Hm Hok Hl) as (Hm' & _ & Hk).
  cbn [fold_left]. rewrite IH; try assumption.
  - replace (merged ++ seg :: segs) with ((merged ++ [seg]) ++ segs)
      by now rewrite <- app_assoc.
    rewrite (byte_at_app (merge_step merged seg)) by apply Hm'.
    rewrite (byte_at_app (merged ++ [seg]))
      by (apply Forall_app; split; [apply Hm | now constructor]).
    now rewrite merge_step_byte_at.
  - eapply Forall_impl; [|exact Hseg]. intros s Hle. apply Hk. exact Hle.
Qed.

Lemma map_seg_of_chunk_ok cs : Forall span_ok (map seg_of_chunk cs).
Proof.
  apply Forall_forall. intros s Hs. apply in_map_iff in Hs as (c & <- & _).
  apply seg_of_chunk_ok.
Qed.

(** X1: in the merged list every address holds the byte of the first
    segment covering it in the sorted order: lowest start first, and
    among equal starts the one given first. *)
Theorem merge_chunks_first_wins (cs : list chunk) (a : Z) :
  byte_at (merge_chunks cs) a
  = byte_at (sort_by_start (map seg_of_chunk cs)) a.
Proof.
  unfold merge_chunks, merge_segs, merge_sorted.
  rewrite (merge_loop_byte_at a _ []); [reflexivity | | | |].
  - apply sort_by_start_sorted.
  - eapply Permutation_Forall; [apply sort_by_start_perm | apply map_seg_of_chunk_ok].
  - split; [constructor | exact I].
  - apply Forall_forall. intros s _ l. discriminate.
Qed.

Lemma owner_covered l a : owner l a <> None <-> covered l a.
Proof.
  unfold owner, covered. split.
  - destruct (find _ l) as [s|] eqn:E; [|congruence]. intros _.
    apply find_some in E as [Hin Hc]. exists s. split; [exact Hin|].
    now apply covers_iff.
  - intros (s & Hin & Hc) E.
    pose proof (find_none _ l E s Hin) as Hf. cbn beta in Hf.
    apply covers_iff in Hc. congruence.
Qed.

Lemma covered_perm l l' a : Permutation l l' -> covered l a -> covered l' a.
Proof.
  intros Hp (s & Hin & Hc). exists s. split; [|exact Hc].
  eapply Permutation_in; eassumption.
Qed.

(** X2: the merged spans hold exactly the addresses of the chunks: nothing
    is lost and nothing is added. *)
Theorem merge_chunks_same_addresses (cs : list chunk) (a : Z) :
  covered (merge_chunks cs) a <-> exists c, In c cs /\ chunk_covers c a.
Proof.
  pose proof (merge_chunks_image cs) as [Hok _].
  pose proof (map_seg_of_chunk_ok cs) as Hsegs.
  assert (Hsorted : Forall span_ok (sort_by_start (map seg_of_chunk cs))).
  { eapply Permutation_Forall; [apply sort_by_start_perm | exact Hsegs]. }
  rewrite <- owner_covered, <- (byte_at_none _ a Hok).
  unfold merge_chunks, merge_segs, merge_sorted.
  rewrite (merge_loop_byte_at a _ []);
    [| apply sort_by_start_sorted | exact Hsorted | split; [constructor | exact I]
     | apply Forall_forall; intros s _ l; discriminate].
  cbn [app]. rewrite (byte_at_none _ a Hsorted), owner_covered.
  split.
  - intros H. apply (covered_perm _ (map seg_of_chunk cs)) in H;
      [|symmetry; apply sort_by_start_perm].
    destruct H as (s & Hin & Hc). apply in_map_iff in Hin as ([addr data] & <- & Hin).
    exists (addr, data). split; [exact Hin | exact Hc].
  - intros ([addr data] & Hin & Hc).
    apply (covered_perm (map seg_of_chunk cs)); [apply sort_by_start_perm|].
    exists (seg_of_chunk (addr, data)). split; [now apply in_map | exact Hc].
Qed.

(** ** How many spans, and in which order the chunks may come *)

Lemma merge_step_length merged seg :
  (length merged <= length (merge_step merged seg) <= S (length merged))%nat
  /\ merge_step merged seg <> [].
Proof.
  destruct merged as [|l init _] using rev_ind.
  - rewrite merge_step_nil. simpl. split; [lia | discriminate].
  - rewrite merge_step_snoc.
    destruct (start_of seg <=? end_of l);
      [destruct (start_of seg <? start_of l); [|destruct (end_of seg >? end_of l)]|];
      rewrite !length_app; simpl; (split; [lia|]);
      intros H; apply (f_equal (@length span)) in H;
      rewrite ?length_app in H; simpl in H; lia.
Qed.

Lemma merge_loop_length segs : forall merged,
  (length (fold_left merge_step segs merged) <= length merged + length segs)%nat
  /\ (fold_left merge_step segs merged = [] -> merged = [] /\ segs = []).
Proof.
  induction segs as [|seg segs IH]; intros merged.
  - simpl. split; [lia | tauto].
  - cbn [fold_left]. destruct (IH (merge_step merged seg)) as [Hlen Hnil].
    pose proof (merge_step_length merged seg) as [Hstep Hne].
    split; [simpl; lia|].
    intros H. apply Hnil in H as [H _]. contradiction.
Qed.

(** X3: the merger never returns more spans than it was given chunks, and
    it returns none only when it was given none. *)
Theorem merge_chunks_count (cs : list chunk) :
  (length (merge_chunks cs) <= length cs)%nat
  /\ (merge_chunks cs = [] <-> cs = []).
Proof.
  unfold merge_chunks, merge_segs, merge_sorted.
  destruct (merge_loop_length (sort_by_start (map seg_of_chunk cs)) []) as [Hlen Hnil].
  rewrite <- (Permutation_length (sort_by_start_perm _)), length_map in Hlen.
  split; [exact Hlen|]. split.
  - intros H. apply Hnil in H as [_ H].
    apply (f_equal (@length span)) in H.
    rewrite <- (Permutation_length (sort_by_start_perm _)), length_map in H.
    now destruct cs.
  - now intros ->.
Qed.

Lemma NoDup_map_same {A B} (f : A -> B) (l : list A) (x y : A) :
  NoDup (map f l) -> In x l -> In y l -> f x = f y -> x = y.
Proof.
  induction l as [|z l IH]; [contradiction|].
  cbn [map]. intros Hnd Hx Hy Hf. apply NoDup_cons_iff in Hnd as [Hz Hnd].
  destruct Hx as [->|Hx], Hy as [->|Hy]; auto.
  - exfalso. apply Hz. rewrite Hf. now apply in_map.
  - exfalso. apply Hz. rewrite <- Hf. now apply in_map.
Qed.

(** Two sorted arrangements of the same segments are the same list when
    no two segments start at the same address. *)
Lemma sorted_perm_unique l : forall l',
  StronglySorted le_start l -> StronglySorted le_start l' ->
  Permutation l l' -> NoDup (map start_of l) -> l = l'.
Proof.
  induction l as [|a l IH]; intros l' Hs Hs' Hp Hnd.
  - now apply Permutation_nil in Hp.
  - destruct l' as [|b l'];
      [apply Permutation_sym, Permutation_nil in Hp; discriminate|].
    apply StronglySorted_inv in Hs as [Hs Ha].
    apply StronglySorted_inv in Hs' as [Hs' Hb].
    assert (Hab : a = b).
    { assert (Hbl : In b (a :: l))
        by (eapply Permutation_in; [symmetry; exact Hp | now left]).
      assert (Hal : In a (b :: l'))
        by (eapply Permutation_in; [exact Hp | now left]).
      apply (NoDup_map_same start_of (a :: l) a b Hnd); [now left | exact Hbl |].
      assert (start_of a <= start_of b).
      { destruct Hbl as [->|Hbl]; [lia|].
        exact (proj1 (Forall_forall _ _) Ha b Hbl). }
      assert (start_of b <= start_of a).
      { destruct Hal as [->|Hal]; [lia|].
        exact (proj1 (Forall_forall _ _) Hb a Hal). }
      lia. }
    subst b. f_equal. apply IH; try assumption.
    + eapply Permutation_cons_inv. exact Hp.
    + cbn [map] in Hnd. now apply NoDup_cons_iff in Hnd.
Qed.

Lemma start_of_seg_of_chunk cs : map start_of (map seg_of_chunk cs) = map fst cs.
Proof.
  rewrite map_map. apply map_ext. now intros [addr data].
Qed.

(** X4: when no two chunks start at the same address, the order in which
    the chunks are given does not change what the merger returns. *)
Theorem merge_chunks_any_order (cs cs' : list chunk) :
  Permutation cs cs' -> NoDup (map fst cs) ->
  merge_chunks cs = merge_chunks cs'.
Proof.
  intros Hp Hnd. unfold merge_chunks, merge_segs. f_equal.
  apply sorted_perm_unique; try apply sort_by_start_sorted.
  - rewrite <- !sort_by_start_perm. now apply Permutation_map.
  - eapply Permutation_NoDup;
      [apply Permutation_map, sort_by_start_perm|].
    now rewrite start_of_seg_of_chunk.
Qed.

Lemma merge_chunks_any_order_witness :
  merge_chunks [(0x110, repeat BB 32); (0x100, repeat AA 32)]
  = merge_chunks [(0x100, repeat AA 32); (0x110, repeat BB 32)].
Proof.
  apply merge_chunks_any_order.
  - apply perm_swap.
  - repeat constructor; simpl; intuition discriminate.
Defined.

(** Among chunks that start at the same address the order does count:
    the one given first keeps its bytes. *)
Example same_start_order_counts :
  merge_chunks [(0x100, [AA]); (0x100, [BB])] = [(0x100, 0x101, [AA])]
  /\ merge_chunks [(0x100, [BB]); (0x100, [AA])] = [(0x100, 0x101, [BB])].
Proof. split; reflexivity. Qed.

(** ** What ends up in the output file *)

Lemma merge_segs_byte_at segs a :
  Forall span_ok segs ->
  byte_at (merge_segs segs) a = byte_at (sort_by_start segs) a.
Proof.
  intros Hok. unfold merge_segs, merge_sorted.
  rewrite (merge_loop_byte_at a _ []); [reflexivity | | | |].
  - apply sort_by_start_sorted.
  - eapply Permutation_Forall; [apply sort_by_start_perm | exact Hok].
  - split; [constructor | exact I].
  - apply Forall_forall. intros s _ l. discriminate.
Qed.

(** Every address of the layout of a merged image holds the byte of the
    span covering it, or the pad byte. *)
Lemma layout_byte b segments pos a :
  merged_image segments -> starts_from pos segments ->
  pos <= a < final_pos pos segments ->
  nth_error (layout b pos segments) (Z.to_nat (a - pos))
  = Some (match byte_at segments a with Some x => x | None => b end).
Proof.
  intros Him Hfrom Ha.
  destruct (owner segments a) as [s|] eqn:Eo.
  - unfold byte_at. rewrite Eo. apply find_some in Eo as [Hin Hc].
    assert (Hok : span_ok s).
    { destruct Him as [Hok _]. exact (proj1 (Forall_forall _ _) Hok s Hin). }
    destruct (span_ok_byte s a Hok Hc) as [x Hx]. rewrite Hx. rewrite <- Hx.
    apply covers_iff in Hc.
    assert (Hpos : pos <= start_of s).
    { destruct segments as [|s0 rest]; [contradiction|].
      specialize (Hfrom s0 eq_refl).
      pose proof (merged_image_first_le (s0 :: rest) s0 s Him eq_refl Hin). lia. }
    rewrite <- (layout_span b segments pos s Him Hfrom Hin) at 1.
    rewrite nth_error_firstn.
    replace (Z.to_nat (a - start_of s) <? length (data_of s))%nat with true
      by (symmetry; apply Nat.ltb_lt; unfold span_ok, Py.len in Hok; lia).
    rewrite nth_error_skipn. f_equal. lia.
  - assert (Hb : byte_at segments a = None) by (unfold byte_at; now rewrite Eo).
    rewrite Hb. apply layout_pad; try assumption.
    intros Hcov. apply owner_covered in Hcov. contradiction.
Qed.

(** X5: each byte of the file written for the merged chunks is, at its
    address, the byte of the first chunk covering that address in the
    sorted order, and the pad byte where no chunk does. *)
Theorem image_bytes (cs : list chunk) (base_addr pad a : Z) (b : byte)
    (first last : span) :
  byte_of_int pad = Some b ->
  hd_error (merge_chunks cs) = Some first ->
  Py.last_opt (merge_chunks cs) = Some last ->
  Z.min (start_of first) base_addr <= a < end_of last ->
  nth_error (out_file (write_bin (merge_chunks cs) base_addr pad))
            (Z.to_nat (a - Z.min (start_of first) base_addr))
  = Some (match byte_at (sort_by_start (map seg_of_chunk cs)) a with
          | Some x => x
          | None => b
          end).
Proof.
  intros Hb Hfirst Hlast Ha.
  pose proof (merge_chunks_image cs) as Him.
  rewrite (write_bin_merged _ base_addr pad b first last Him Hfirst Hlast Hb).
  cbn [out_file].
  rewrite <- (merge_segs_byte_at _ a (map_seg_of_chunk_ok cs)).
  apply layout_byte; [exact Him | |].
  - intros h Hh. unfold merge_chunks in Hfirst. rewrite Hfirst in Hh.
    injection Hh as <-. lia.
  - unfold final_pos. unfold merge_chunks in Hlast. now rewrite Hlast.
Qed.

Lemma image_bytes_witness :
  let cs := [(0x110, repeat BB 32); (0x100, repeat AA 32); (0x140, [x01])] in
  nth_error (out_file (write_bin (merge_chunks cs) 0x100 0xFF)) (Z.to_nat (0x118 - 0x100))
  = Some AA
  /\ nth_error (out_file (write_bin (merge_chunks cs) 0x100 0xFF)) (Z.to_nat (0x138 - 0x100))
     = Some xff.
Proof.
  split.
  - refine (image_bytes
              [(0x110, repeat BB 32); (0x100, repeat AA 32); (0x140, [x01])]
              0x100 0xFF 0x118 xff
              (0x100, 0x130, repeat AA 32 ++ repeat BB 16) (0x140, 0x141, [x01])
              eq_refl eq_refl eq_refl _).
    unfold start_of, end_of. simpl. lia.
  - refine (image_bytes
              [(0x110, repeat BB 32); (0x100, repeat AA 32); (0x140, [x01])]
              0x100 0xFF 0x138 xff
              (0x100, 0x130, repeat AA 32 ++ repeat BB 16) (0x140, 0x141, [x01])
              eq_refl eq_refl eq_refl _).
    unfold start_of, end_of. simpl. lia.
Defined.

Lemma last_opt_some {A} (l : list A) : l <> [] -> exists x, Py.last_opt l = Some x.
Proof.
  intros Hne. destruct (Py.last_opt l) as [x|] eqn:E; [eauto|].
  apply last_opt_none in E. contradiction.
Qed.

(** X6: a base address below the first span only puts pad bytes in front:
    the rest of the file is what is written with the base address at the
    first span. *)
Theorem write_bin_lower_base (segments : list span) (base_addr pad : Z)
    (b : byte) (first : span) :
  merged_image segments -> hd_error segments = Some first ->
  byte_of_int pad = Some b -> base_addr <= start_of first ->
  out_raised (write_bin segments base_addr pad) = None
  /\ out_file (write_bin segments base_addr pad)
     = Py.times b (start_of first - base_addr)
       ++ out_file (write_bin segments (start_of first) pad).
Proof.
  intros Him Hfirst Hb Hbase.
  destruct (last_opt_some segments) as [last Hlast];
    [intros ->; discriminate|].
  rewrite !(write_bin_merged segments _ pad b first last Him Hfirst Hlast Hb).
  cbn [out_file out_raised]. split; [reflexivity|].
  rewrite Z.min_id, Z.min_r by lia.
  destruct segments as [|s rest]; [discriminate|]. injection Hfirst as ->.
  cbn [layout]. rewrite Z.sub_diag. now rewrite (times_nonpos b 0) by lia.
Qed.

Lemma write_bin_lower_base_witness :
  let segments := [(0x104, 0x106, [x01; x02]); (0x108, 0x109, [x03])] in
  out_raised (write_bin segments 0x100 0xFF) = None
  /\ out_file (write_bin segments 0x100 0xFF)
     = Py.times xff (0x104 - 0x100) ++ out_file (write_bin segments 0x104 0xFF).
Proof.
  refine (write_bin_lower_base
            [(0x104, 0x106, [x01; x02]); (0x108, 0x109, [x03])] 0x100 0xFF xff
            (0x104, 0x106, [x01; x02]) _ eq_refl eq_refl _).
  - split; [repeat constructor|]. simpl. unfold end_of, start_of. simpl. lia.
  - unfold start_of. simpl. lia.
Defined.

(** X7: a pad value outside [range(256)] is noticed only when a pad byte
    is needed.  One span with the base address not below it is written as
    it is; otherwise [ValueError] is raised, before anything is written
    when the base address is below the first span, after the first span
    when a second one follows. *)
Theorem write_bin_bad_pad (segments rest : list span) (base_addr pad : Z)
    (first : span) :
  merged_image segments -> segments = first :: rest ->
  byte_of_int pad = None ->
  write_bin segments base_addr pad
  = if base_addr <? start_of first then
      {| out_file := [];
         out_log := [ReportRange base_addr (final_pos 0 segments)
                                 (final_pos 0 segments - base_addr)];
         out_raised := Some ValueError |}
    else
      match rest with
      | [] =>
          {| out_file := data_of first;
             out_log := [ReportRange (start_of first) (end_of first)
                                     (end_of first - start_of first);
                         ReportDone (end_of first - start_of first)];
             out_raised := None |}
      | _ :: _ =>
          {| out_file := data_of first;
             out_log := [ReportRange (start_of first) (final_pos 0 segments)
                                     (final_pos 0 segments - start_of first)];
             out_raised := Some ValueError |}
      end.
Proof.
  intros Him -> Hpad.
  destruct (merged_image_tail first rest Him) as (Hok & _ & Hnext).
  destruct (last_opt_some (first :: rest)) as [[[lst led] ldata] Hlast];
    [discriminate|].
  destruct first as [[st ed] data].
  unfold write_bin, final_pos. rewrite Hlast.
  unfold start_of, end_of, data_of in *. cbn [fst snd] in *.
  cbn [write_segments]. rewrite Hpad.
  destruct (base_addr <? st) eqn:E.
  - apply Z.ltb_lt in E. rewrite Z.min_r by lia.
    replace (st >? base_addr) with true by (symmetry; apply Z.gtb_gt; lia).
    reflexivity.
  - apply Z.ltb_ge in E. rewrite Z.min_l by lia.
    rewrite Z.gtb_ltb, Z.ltb_irrefl. cbn [app].
    destruct rest as [|[[st1 ed1] data1] rest'].
    + cbn [write_segments]. cbn [Py.last_opt] in Hlast. injection Hlast as <- <- <-.
      rewrite Z.ltb_irrefl. unfold span_ok, data_of, start_of, end_of in Hok.
      cbn [fst snd] in Hok. now rewrite Hok.
    + cbn [write_segments]. rewrite Hpad.
      specialize (Hnext _ eq_refl). unfold start_of in Hnext. cbn [fst] in Hnext.
      destruct Him as [_ [Hlt _]]. unfold start_of, end_of in Hlt. cbn [fst snd] in Hlt.
      replace (st1 >? ed) with true by (symmetry; apply Z.gtb_gt; lia).
      reflexivity.
Qed.

Lemma write_bin_bad_pad_witness :
  write_bin [(0x100, 0x102, [x01; x02])] 0x100 0x1FF
  = {| out_file := [x01; x02];
       out_log := [ReportRange 0x100 0x102 2; ReportDone 2];
       out_raised := None |}
  /\ out_raised (write_bin [(0x100, 0x102, [x01; x02]); (0x104, 0x105, [x03])] 0x100 0x1FF)
     = Some ValueError.
Proof.
  split.
  - refine (write_bin_bad_pad [(0x100, 0x102, [x01; x02])] [] 0x100 0x1FF
              (0x100, 0x102, [x01; x02]) _ eq_refl eq_refl).
    split; [repeat constructor | exact I].
  - refine (f_equal out_raised
              (write_bin_bad_pad [(0x100, 0x102, [x01; x02]); (0x104, 0x105, [x03])]
                 [(0x104, 0x105, [x03])] 0x100 0x1FF
                 (0x100, 0x102, [x01; x02]) _ eq_refl eq_refl)).
    split; [repeat constructor|]. simpl. unfold end_of, start_of. simpl. lia.
Defined.

(** ** Records that end or do not touch the decoding *)

(** X8: an end-of-file record ends the decoding: the chunks of the lines
    before it are the result, and nothing after it is read, whatever it
    is. *)
Theorem eof_record_stops
    (pre post : list text) (eof : text) (ext e c a : Z) (d : bytes) :
  ext_after ext pre = Some e ->
  parse_line eof = Record c a 0x01 d ->
  read_hex_lines ext (pre ++ eof :: post) = (fst (read_hex_lines ext pre), None).
Proof.
  intros Hpre Heof. rewrite (read_hex_lines_app pre ext e _ Hpre).
  cbn [read_hex_lines]. unfold hex_line. rewrite Heof.
  cbn [Z.eqb Pos.eqb fst snd]. now rewrite app_nil_r.
Qed.

Lemma eof_record_stops_witness :
  read_hex_lines 0 ([line ":0400100001020304E2"] ++ line ":00000001FF"
                    :: [line ":04002000AABBCCDDCE"; line ":zz"])
  = (fst (read_hex_lines 0 [line ":0400100001020304E2"]), None).
Proof.
  exact (eof_record_stops [line ":0400100001020304E2"]
           [line ":04002000AABBCCDDCE"; line ":zz"] (line ":00000001FF")
           0 0 0 0 [] eq_refl eq_refl).
Defined.

Lemma hex_line_skip_anywhere pre : forall ext raw post,
  (forall e, hex_line e raw = Skip) ->
  read_hex_lines ext (pre ++ raw :: post) = read_hex_lines ext (pre ++ post).
Proof.
  induction pre as [|x pre IH]; intros ext raw post Hskip.
  - cbn [app read_hex_lines]. now rewrite Hskip.
  - cbn [app read_hex_lines].
    destruct (hex_line ext x); try reflexivity; now rewrite IH.
Qed.

(** X9: a line that is blank or does not start with [:], and a record of
    a type other than 0x00, 0x01 and 0x04, leave no trace: the decoding
    is the same with the line taken out. *)
Theorem ignored_line_leaves_no_trace
    (pre post : list text) (raw : text) (ext : Z) :
  hd_error (strip raw) <> Some ":"%char
  \/ (exists c a t d, parse_line raw = Record c a t d
                      /\ t <> 0x00 /\ t <> 0x01 /\ t <> 0x04) ->
  read_hex_lines ext (pre ++ raw :: post) = read_hex_lines ext (pre ++ post).
Proof.
  intros H. apply hex_line_skip_anywhere. intros e. unfold hex_line.
  destruct H as [Hhd|(c & a & t & d & -> & H0 & H1 & H4)].
  - unfold parse_line. destruct (strip raw) as [|c0 l]; [reflexivity|].
    destruct (c0 =? ":")%char eqn:E; [|reflexivity].
    apply Ascii.eqb_eq in E. subst c0. now contradiction Hhd.
  - apply Z.eqb_neq in H0, H1, H4. now rewrite H0, H1, H4.
Qed.

Lemma ignored_line_leaves_no_trace_witness :
  read_hex_lines 0 ([line ":0400100001020304E2"] ++ line "; a comment"
                    :: [line ":00000001FF"])
  = read_hex_lines 0 ([line ":0400100001020304E2"] ++ [line ":00000001FF"])
  /\ read_hex_lines 0 ([] ++ line ":0400000508000131B9"
                       :: [line ":0400100001020304E2"])
     = read_hex_lines 0 ([] ++ [line ":0400100001020304E2"]).
Proof.
  split.
  - apply ignored_line_leaves_no_trace. left. simpl. discriminate.
  - apply ignored_line_leaves_no_trace. right.
    exists 4, 0, 5, [x08; x00; x01; x31].
    split; [reflexivity|]. repeat split; discriminate.
Defined.

(** X10: an extended linear address record whose payload is not exactly
    two bytes makes the decoder die with [struct.error]; the chunks read
    before it are all it has yielded. *)
Theorem ela_payload_not_two_bytes
    (pre post : list text) (raw : text) (ext e c a : Z) (d : bytes) :
  ext_after ext pre = Some e ->
  parse_line raw = Record c a 0x04 d ->
  length d <> 2%nat ->
  read_hex_lines ext (pre ++ raw :: post)
  = (fst (read_hex_lines ext pre), Some StructError).
Proof.
  intros Hpre Hraw Hlen. rewrite (read_hex_lines_app pre ext e _ Hpre).
  cbn [read_hex_lines]. unfold hex_line. rewrite Hraw. cbn [Z.eqb Pos.eqb].
  assert (Hun : unpack_be16 d = None).
  { destruct d as [|b0 [|b1 [|b2 d]]]; try reflexivity. now contradiction Hlen. }
  rewrite Hun. cbn [fst snd]. now rewrite app_nil_r.
Qed.

Lemma ela_payload_not_two_bytes_witness :
  read_hex_lines 0 ([line ":0400100001020304E2"] ++ line ":0100000408F3"
                    :: [line ":0400100001020304E2"])
  = (fst (read_hex_lines 0 [line ":0400100001020304E2"]), Some StructError).
Proof.
  refine (ela_payload_not_two_bytes [line ":0400100001020304E2"]
            [line ":0400100001020304E2"] (line ":0100000408F3")
            0 0 1 0 [x08] eq_refl eq_refl _).
  simpl. discriminate.
Defined.

(** ** How many bytes a record gives *)


Lemma len_slice_le {A} (l : list A) (lo hi : Z) :
  0 <= lo -> 0 <= hi ->
  Py.len (Py.slice l (Some lo) (Some hi)) <= Z.max 0 (hi - lo).
Proof.
  intros Hlo Hhi. unfold Py.slice, Py.clamp.
  destruct (lo <? 0) eqn:E1; [lia|]. destruct (hi <? 0) eqn:E2; [lia|].
  unfold Py.len at 1.
  pose proof (firstn_le_length
                (Z.to_nat (Z.min hi (Py.len l) - Z.min lo (Py.len l)))
                (skipn (Z.to_nat (Z.min lo (Py.len l))) l)) as H.
  pose proof (len_nonneg l). lia.
Qed.



(** ** Well-formed records *)

Lemma hex_char_plain c :
  is_hex c = true ->
  is_c_space c = false
  /\ (c =? "+")%char = false /\ (c =? "-")%char = false
  /\ (c =? "_")%char = false
  /\ (c =? "x")%char = false /\ (c =? "X")%char = false
  /\ 0 <= digit_value c < 16.
Proof.
  destruct c as [[] [] [] [] [] [] [] []]; vm_compute; intros H;
    try discriminate H; repeat split; discriminate.
Qed.

Lemma scan_digits_hex s : forall acc,
  forallb is_hex s = true ->
  scan_digits 16 s false acc
  = Some (fold_left (fun v c => v * 16 + digit_value c) s acc, []).
Proof.
  induction s as [|c s IH]; intros acc H; [reflexivity|].
  cbn [forallb] in H. apply andb_true_iff in H as [Hc Hs].
  cbn [scan_digits fold_left]. unfold is_hex in Hc. rewrite Hc. now apply IH.
Qed.

(** [int(s, 16)] reads a non-empty string of hexadecimal digits as the
    number it writes. *)
Lemma int16_hex s :
  s <> [] -> forallb is_hex s = true -> int16 s = Some (hex_value s).
Proof.
  intros Hne H. destruct s as [|c r]; [contradiction|].
  pose proof H as Hall. cbn [forallb] in H. apply andb_true_iff in H as [Hc Hr].
  destruct (hex_char_plain c Hc) as (Hsp & Hplus & Hminus & Hus & _).
  unfold int16. cbn [skip_spaces]. rewrite Hsp.
  unfold take_sign. rewrite Hplus, Hminus.
  assert (Hpre : skip_prefix16 (c :: r) = c :: r).
  { unfold skip_prefix16. destruct r as [|x r']; [reflexivity|].
    cbn [forallb] in Hr. apply andb_true_iff in Hr as [Hx _].
    destruct (hex_char_plain x Hx) as (_ & _ & _ & _ & Hx1 & Hx2 & _).
    now rewrite Hx1, Hx2, andb_false_r. }
  rewrite Hpre, Hus, (scan_digits_hex _ 0 Hall).
  cbn [length Nat.eqb skip_spaces]. unfold hex_value.
  now rewrite Z.mul_1_l.
Qed.

Lemma byte_of_int_some n : 0 <= n < 256 -> exists b, byte_of_int n = Some b.
Proof.
  intros Hn. unfold byte_of_int.
  replace ((0 <=? n) && (n <? 256)) with true
    by (symmetry; apply andb_true_iff; rewrite Z.leb_le, Z.ltb_lt; lia).
  destruct (Byte.of_N (Z.to_N n)) as [b|] eqn:E; [eauto|].
  apply Byte.of_N_None_iff in E. lia.
Qed.

(** [bytes.fromhex] turns [2 * n] hexadecimal digits into [n] bytes. *)
Lemma fromhex_hex n : forall s,
  length s = (2 * n)%nat -> forallb is_hex s = true ->
  exists data, fromhex s = Some data /\ length data = n.
Proof.
  induction n as [|n IH]; intros s Hlen H.
  - destruct s; [|discriminate]. exists []. now split.
  - destruct s as [|c [|d r]]; try (simpl in Hlen; lia).
    cbn [forallb] in H. apply andb_true_iff in H as [Hc H].
    apply andb_true_iff in H as [Hd Hr].
    destruct (hex_char_plain c Hc) as (Hsp & _ & _ & _ & _ & _ & Hvc).
    destruct (hex_char_plain d Hd) as (_ & _ & _ & _ & _ & _ & Hvd).
    destruct (IH r) as (data & Hdata & Hn); [simpl in Hlen; lia | exact Hr |].
    destruct (byte_of_int_some (digit_value c * 16 + digit_value d)) as [b Hb]; [lia|].
    exists (b :: data). cbn [fromhex]. unfold is_hex in Hc, Hd.
    rewrite Hsp, Hc, Hd, Hb, Hdata. split; [reflexivity | simpl; now rewrite Hn].
Qed.

(** A string of [n] hexadecimal digits writes a number below [16 ^ n]. *)
Lemma hex_value_bound s :
  forallb is_hex s = true -> 0 <= hex_value s < 16 ^ Z.of_nat (length s).
Proof.
  unfold hex_value. induction s as [|c s IH] using rev_ind; intros H.
  - simpl. lia.
  - rewrite forallb_app in H. apply andb_true_iff in H as [Hs Hc].
    cbn [forallb] in Hc. rewrite andb_true_r in Hc.
    destruct (hex_char_plain c Hc) as (_ & _ & _ & _ & _ & _ & Hv).
    specialize (IH Hs). rewrite fold_left_app. cbn [fold_left].
    rewrite length_app. cbn [length].
    replace (Z.of_nat (length s + 1)) with (Z.of_nat (length s) + 1) by lia.
    rewrite Z.pow_add_r by lia. lia.
Qed.

(** X12: a record written as [:], two digits of byte count, four of
    address, two of record type and twice the byte count of data digits
    is read as exactly these numbers and that many data bytes; what
    follows the data on the line, the checksum included, is not looked
    at. *)
Theorem well_formed_record (raw cc aaaa tt dd rest : text) :
  strip raw = ":"%char :: cc ++ aaaa ++ tt ++ dd ++ rest ->
  length cc = 2%nat -> length aaaa = 4%nat -> length tt = 2%nat ->
  forallb is_hex (cc ++ aaaa ++ tt ++ dd) = true ->
  Py.len dd = 2 * hex_value cc ->
  exists data,
    fromhex dd = Some data
    /\ Py.len data = hex_value cc
    /\ parse_line raw = Record (hex_value cc) (hex_value aaaa) (hex_value tt) data
    /\ 0 <= hex_value cc < 256
    /\ 0 <= hex_value aaaa < 65536
    /\ 0 <= hex_value tt < 256.
Proof.
  intros Hstrip Hcc Haaaa Htt Hhex Hdd.
  destruct cc as [|c1 [|c2 [|? ?]]]; try discriminate Hcc.
  destruct aaaa as [|a1 [|a2 [|a3 [|a4 [|? ?]]]]]; try discriminate Haaaa.
  destruct tt as [|t1 [|t2 [|? ?]]]; try discriminate Htt.
  cbn [app] in Hstrip, Hhex.
  assert (Hcount : forallb is_hex [c1; c2] = true).
  { cbn [forallb] in *. repeat (apply andb_true_iff in Hhex as [? Hhex]).
    repeat (apply andb_true_iff; split); auto. }
  assert (Haddr : forallb is_hex [a1; a2; a3; a4] = true).
  { cbn [forallb] in *. repeat (apply andb_true_iff in Hhex as [? Hhex]).
    repeat (apply andb_true_iff; split); auto. }
  assert (Htype : forallb is_hex [t1; t2] = true).
  { cbn [forallb] in *. repeat (apply andb_true_iff in Hhex as [? Hhex]).
    repeat (apply andb_true_iff; split); auto. }
  assert (Hdata : forallb is_hex dd = true).
  { cbn [forallb] in Hhex. repeat (apply andb_true_iff in Hhex as [_ Hhex]).
    exact Hhex. }
  pose proof (hex_value_bound [c1; c2] Hcount) as Bcc.
  pose proof (hex_value_bound [a1; a2; a3; a4] Haddr) as Baa.
  pose proof (hex_value_bound [t1; t2] Htype) as Btt.
  cbn [length Nat.mul Nat.add Z.of_nat Pos.of_succ_nat Pos.succ Z.pow Z.pow_pos
       Pos.iter Z.mul Pos.mul Pos.add] in Bcc, Baa, Btt.
  destruct (fromhex_hex (Z.to_nat (hex_value [c1; c2])) dd) as (data & Hfrom & Hlen);
    [unfold Py.len in Hdd; lia | exact Hdata |].
  exists data. split; [exact Hfrom|].
  split; [unfold Py.len; lia|]. split; [|auto].
  unfold parse_line. rewrite Hstrip. cbn [Ascii.eqb Bool.eqb andb negb].
  set (l := ":"%char :: c1 :: c2 :: a1 :: a2 :: a3 :: a4 :: t1 :: t2 :: dd ++ rest).
  assert (Hl : Py.len l = 9 + Py.len dd + Py.len rest).
  { unfold l, Py.len. cbn [length]. rewrite length_app. lia. }
  pose proof (len_nonneg dd). pose proof (len_nonneg rest).
  rewrite (slice_range l 1 3), (slice_range l 3 7), (slice_range l 7 9) by lia.
  change (firstn (Z.to_nat (3 - 1)) (skipn (Z.to_nat 1) l)) with [c1; c2].
  change (firstn (Z.to_nat (7 - 3)) (skipn (Z.to_nat 3) l)) with [a1; a2; a3; a4].
  change (firstn (Z.to_nat (9 - 7)) (skipn (Z.to_nat 7) l)) with [t1; t2].
  rewrite !int16_hex by (assumption || discriminate).
  rewrite (slice_range l 9 (9 + hex_value [c1; c2] * 2)) by lia.
  change (skipn (Z.to_nat 9) l) with (dd ++ rest).
  replace (Z.to_nat (9 + hex_value [c1; c2] * 2 - 9)) with (length dd)
    by (unfold Py.len in Hdd; lia).
  now rewrite firstn_exact, Hfrom.
Qed.

Lemma well_formed_record_witness :
  exists data,
    fromhex (line "01020304") = Some data
    /\ Py.len data = hex_value (line "04")
    /\ parse_line (line "  :0400100001020304E2 ; checksum and more")
       = Record (hex_value (line "04")) (hex_value (line "0010"))
                (hex_value (line "00")) data
    /\ 0 <= hex_value (line "04") < 256
    /\ 0 <= hex_value (line "0010") < 65536
    /\ 0 <= hex_value (line "00") < 256.
Proof.
  exact (well_formed_record (line "  :0400100001020304E2 ; checksum and more")
           (line "04") (line "0010") (line "00") (line "01020304")
           (line "E2 ; checksum and more")
           eq_refl eq_refl eq_refl eq_refl eq_refl eq_refl).
Defined.

(** ** Line endings *)

Lemma text_lines_body l : forall cur rest,
  forallb no_eol l = true ->
  text_lines (l ++ rest) cur = text_lines rest (cur ++ l).
Proof.
  induction l as [|c l IH]; intros cur rest H; [now rewrite app_nil_r|].
  cbn [forallb] in H. apply andb_true_iff in H as [Hc Hl].
  unfold no_eol in Hc. apply andb_true_iff in Hc as [Hcr Hlf].
  apply negb_true_iff in Hcr, Hlf.
  cbn [app text_lines]. rewrite Hlf, Hcr, (IH _ _ Hl).
  now rewrite <- app_assoc.
Qed.

Lemma text_lines_eol eol cur rest :
  eol = [LF] \/ eol = [CR; LF] \/ (eol = [CR] /\ no_lf_first rest = true) ->
  text_lines (eol ++ rest) cur = (cur ++ [LF]) :: text_lines rest [].
Proof.
  intros [->|[->|[-> Hrest]]]; cbn [app text_lines]; try reflexivity.
  destruct rest as [|c r]; [reflexivity|].
  cbn [no_lf_first] in Hrest. apply negb_true_iff in Hrest.
  change (CR =? LF)%char with false. cbv iota.
  change (CR =? CR)%char with true. cbv iota. now rewrite Hrest.
Qed.

Lemma join_lines_no_lf_first ls :
  Forall (fun l => forallb no_eol l = true) ls ->
  no_lf_first (join_lines [CR] ls) = true.
Proof.
  intros H. destruct H as [|l ls Hl _]; [reflexivity|].
  unfold join_lines. cbn [map concat].
  destruct l as [|c l]; [reflexivity|].
  cbn [forallb] in Hl. apply andb_true_iff in Hl as [Hc _].
  unfold no_eol in Hc. apply andb_true_iff in Hc as [_ Hlf].
  exact Hlf.
Qed.

(** Whatever the line ending, the file is read as the same lines. *)
Lemma text_lines_join eol ls :
  eol = [LF] \/ eol = [CR; LF] \/ eol = [CR] ->
  Forall (fun l => forallb no_eol l = true) ls ->
  text_lines (join_lines eol ls) [] = map (fun l => l ++ [LF]) ls.
Proof.
  intros Heol H. induction H as [|l ls Hl Hls IH]; [reflexivity|].
  unfold join_lines in *. cbn [map concat].
  rewrite <- app_assoc, (text_lines_body l [] _ Hl), text_lines_eol.
  - cbn [app]. now rewrite IH.
  - destruct Heol as [->|[->| ->]]; [now left | right; now left |].
    right. right. split; [reflexivity|].
    apply (join_lines_no_lf_first ls Hls).
Qed.

Lemma lstrip_snoc_space l c :
  is_str_space c = true ->
  lstrip (l ++ [c]) = match lstrip l with [] => [] | _ :: _ => lstrip l ++ [c] end.
Proof.
  intros Hc. induction l as [|x l IH]; cbn [app lstrip].
  - now rewrite Hc.
  - destruct (is_str_space x); [exact IH | reflexivity].
Qed.

(** Whitespace at the end of a line does not count. *)
Lemma strip_snoc_space l c : is_str_space c = true -> strip (l ++ [c]) = strip l.
Proof.
  intros Hc. unfold strip. rewrite (lstrip_snoc_space l c Hc).
  destruct (lstrip l) as [|x m]; [reflexivity|].
  rewrite rev_app_distr. cbn [rev app lstrip]. now rewrite Hc.
Qed.

Lemma hex_line_snoc_space ext l c :
  is_str_space c = true -> hex_line ext (l ++ [c]) = hex_line ext l.
Proof.
  intros Hc. unfold hex_line, parse_line. now rewrite (strip_snoc_space l c Hc).
Qed.

Lemma read_hex_lines_map f ls : forall ext,
  (forall e l, hex_line e (f l) = hex_line e l) ->
  read_hex_lines ext (map f ls) = read_hex_lines ext ls.
Proof.
  intros ext Hf. revert ext. induction ls as [|l ls IH]; intros ext; [reflexivity|].
  cbn [map read_hex_lines]. rewrite Hf.
  destruct (hex_line ext l); try reflexivity; now rewrite IH.
Qed.

(** X13: a HEX text decodes to the same chunks whether its lines end
    with LF, with CR LF or with CR. *)
Theorem line_ending_does_not_count (eol : text) (ls : list text) (ext : Z) :
  eol = [LF] \/ eol = [CR; LF] \/ eol = [CR] ->
  Forall (fun l => forallb no_eol l = true) ls ->
  read_hex_lines ext (text_lines (join_lines eol ls) []) = read_hex_lines ext ls.
Proof.
  intros Heol Hls. rewrite (text_lines_join eol ls Heol Hls).
  apply read_hex_lines_map. intros e l. now apply hex_line_snoc_space.
Qed.

Lemma line_ending_does_not_count_witness :
  let ls := [line ":020000040800F2"; line ":02000000AABB99"; line ":00000001FF"] in
  read_hex_lines 0 (text_lines (join_lines [CR; LF] ls) [])
  = ([(0x08000000, [xaa; xbb])], None)
  /\ read_hex_lines 0 (text_lines (join_lines [CR; LF] ls) []) = read_hex_lines 0 ls.
Proof.
  split; [reflexivity|].
  apply line_ending_does_not_count.
  - right. now left.
  - repeat constructor.
Defined.

(** ** Input items *)

Lemma rsplit_at_none item : rsplit_at item = None <-> has_at item = false.
Proof.
  induction item as [|c r IH]; [tauto|].
  cbn [rsplit_at has_at]. destruct (rsplit_at r) as [[p a]|].
  - split; [discriminate|]. intros H. apply orb_false_iff in H as [_ H].
    apply IH in H. discriminate.
  - destruct (c =? "@")%char; cbn [orb]; [split; discriminate|].
    split; [intros _; now apply IH | reflexivity].
Qed.

(** X14: an item is split at its last [@]: for any path, with or without
    [@] in it, followed by [@] and an address text without [@], the path
    and the address text are found again. *)
Theorem rsplit_at_last (path_str addr_str : string) :
  has_at addr_str = false ->
  rsplit_at (path_str ++ String "@" addr_str) = Some (path_str, addr_str).
Proof.
  intros Ha. apply rsplit_at_none in Ha.
  induction path_str as [|c p IH]; cbn [String.append rsplit_at].
  - rewrite Ha. reflexivity.
  - now rewrite IH.
Qed.

Lemma rsplit_at_last_witness :
  rsplit_at ("build@home/boot.bin" ++ String "@" "0x08000000")
  = Some ("build@home/boot.bin", "0x08000000")%string.
Proof.
  exact (rsplit_at_last "build@home/boot.bin" "0x08000000" eq_refl).
Defined.

(** ** Inputs that are skipped, and inputs that end the run *)

Lemma load_path_log E segs log1 log2 p load_addr :
  fst (fst (load_path E (segs, log1) p load_addr))
  = fst (fst (load_path E (segs, log2) p load_addr))
  /\ snd (load_path E (segs, log1) p load_addr)
     = snd (load_path E (segs, log2) p load_addr).
Proof.
  unfold load_path.
  destruct (lookup E p) as [| |content]; [now split | |];
    (destruct (suffix_lower E p =? ".hex")%string;
     [|destruct (suffix_lower E p =? ".bin")%string; [destruct load_addr|]]);
    try (now split).
  now destruct (read_hex_records content).
Qed.

Lemma load_item_log E segs log1 log2 item :
  fst (fst (load_item E (segs, log1) item))
  = fst (fst (load_item E (segs, log2) item))
  /\ snd (load_item E (segs, log1) item) = snd (load_item E (segs, log2) item).
Proof.
  unfold load_item. destruct (rsplit_at item) as [[p a]|];
    [destruct (int_auto E a); [|now split]|]; apply load_path_log.
Qed.

(** What is printed has no influence on what is loaded. *)
Lemma load_items_log E file_list : forall segs log1 log2,
  fst (fst (load_items E file_list (segs, log1)))
  = fst (fst (load_items E file_list (segs, log2)))
  /\ snd (load_items E file_list (segs, log1))
     = snd (load_items E file_list (segs, log2)).
Proof.
  induction file_list as [|item rest IH]; intros segs log1 log2; [now split|].
  cbn [load_items].
  destruct (load_item_log E segs log1 log2 item) as [Hsegs Hstop].
  destruct (load_item E (segs, log1) item) as [[segs1 l1] s1].
  destruct (load_item E (segs, log2) item) as [[segs2 l2] s2].
  cbn [fst snd] in Hsegs, Hstop. subst segs2 s2.
  destruct s1; [now split | apply IH].
Qed.

(** What [collect_segments] returns, read off the end of the loop. *)
Lemma collect_segments_fst E file_list :
  fst (collect_segments E file_list)
  = match snd (load_items E file_list ([], [])) with
    | None => inl (merge_segs (fst (fst (load_items E file_list ([], [])))))
    | Some s => inr s
    end.
Proof.
  unfold collect_segments.
  now destruct (load_items E file_list ([], [])) as [[segs log] [s|]].
Qed.

Lemma load_items_skip E item :
  (forall segs log, exists log',
      load_item E (segs, log) item = ((segs, log'), None)) ->
  forall pre post st,
    fst (fst (load_items E (pre ++ item :: post) st))
    = fst (fst (load_items E (pre ++ post) st))
    /\ snd (load_items E (pre ++ item :: post) st)
       = snd (load_items E (pre ++ post) st).
Proof.
  intros Hskip. induction pre as [|x pre IH]; intros post [segs log].
  - cbn [app load_items]. destruct (Hskip segs log) as [log' ->].
    apply load_items_log.
  - cbn [app load_items].
    destruct (load_item E (segs, log) x) as [st1 [s|]]; [now split | apply IH].
Qed.

(** X15: an input whose file does not exist, or whose file is neither
    [.hex] nor [.bin], changes nothing but the messages: the call returns
    what it returns without it. *)
Theorem skipped_input_changes_nothing
    (E : env) (pre post : list string) (item : string) :
  item_addr_ok E item = true ->
  lookup E (item_path item) = Absent
  \/ (suffix_lower E (item_path item) <> ".hex"%string
      /\ suffix_lower E (item_path item) <> ".bin"%string) ->
  fst (collect_segments E (pre ++ item :: post))
  = fst (collect_segments E (pre ++ post)).
Proof.
  intros Haddr Hskip. rewrite !collect_segments_fst.
  assert (H : forall segs log, exists log',
               load_item E (segs, log) item = ((segs, log'), None)).
  { intros segs log. unfold load_item, item_addr_ok, item_path in *.
    assert (Hp : forall p load_addr,
               lookup E p = Absent
               \/ (suffix_lower E p <> ".hex"%string
                   /\ suffix_lower E p <> ".bin"%string) ->
               exists log', load_path E (segs, log) p load_addr = ((segs, log'), None)).
    { intros p load_addr Hc. unfold load_path.
      destruct Hc as [->|[Hhex Hbin]]; [eauto|].
      apply String.eqb_neq in Hhex, Hbin. rewrite Hhex, Hbin.
      destruct (lookup E p); eauto. }
    destruct (rsplit_at item) as [[p a]|]; [|now apply Hp].
    destruct (int_auto E a); [now apply Hp | discriminate]. }
  destruct (load_items_skip E item H pre post ([], [])) as [-> ->].
  reflexivity.
Qed.

Lemma skipped_input_changes_nothing_witness :
  fst (collect_segments demo_env
         (["app.hex"%string] ++ "missing.bin"%string :: ["boot.bin@0x08000000"%string]))
  = fst (collect_segments demo_env
           (["app.hex"%string] ++ ["boot.bin@0x08000000"%string]))
  /\ fst (collect_segments demo_env ([] ++ "notes.txt@0x10"%string :: ["app.hex"%string]))
     = fst (collect_segments demo_env ([] ++ ["app.hex"%string])).
Proof.
  split.
  - apply skipped_input_changes_nothing; [reflexivity | now left].
  - apply skipped_input_changes_nothing; [reflexivity|].
    right. split; discriminate.
Defined.

(** X16: an address text that [int(addr_str, 0)] rejects ends the run
    with [ValueError] as soon as the item is reached, before the file is
    looked for: nothing is returned and no output is written. *)
Theorem bad_address_ends_run
    (E : env) (pre post : list string) (item path_str addr_str : string)
    (segs : list span) (log : list message) (base pad : Z) :
  load_items E pre ([], []) = ((segs, log), None) ->
  rsplit_at item = Some (path_str, addr_str) ->
  int_auto E addr_str = None ->
  collect_segments E (pre ++ item :: post) = (inr (Died ValueError), log)
  /\ status (main E (pre ++ item :: post) base pad) = 1
  /\ output (main E (pre ++ item :: post) base pad) = None.
Proof.
  intros Hpre Hsplit Hint.
  assert (Hcol : collect_segments E (pre ++ item :: post)
                 = (inr (Died ValueError), log)).
  { unfold collect_segments. rewrite (load_items_app E pre _ _ _ Hpre).
    cbn [load_items]. unfold load_item. now rewrite Hsplit, Hint. }
  repeat split; [exact Hcol | |]; unfold main; now rewrite Hcol.
Qed.

Lemma bad_address_ends_run_witness :
  let inputs := ["app.hex"%string] ++ "missing.bin@zz"%string
                :: ["boot.bin@0x08000000"%string] in
  collect_segments demo_env inputs = (inr (Died ValueError), [])
  /\ status (main demo_env inputs 0x08000000 0xFF) = 1
  /\ output (main demo_env inputs 0x08000000 0xFF) = None.
Proof.
  exact (bad_address_ends_run demo_env ["app.hex"%string] ["boot.bin@0x08000000"%string]
           "missing.bin@zz" "missing.bin" "zz" _ _ 0x08000000 0xFF
           eq_refl eq_refl eq_refl).
Defined.

(** X17: when the decoding of a [.hex] input raises, the run ends with
    that exception: the segments collected so far are dropped, the exit
    status is 1 and no output is written. *)
Theorem failing_hex_ends_run
    (E : env) (pre post : list string) (item : string) (content : bytes)
    (cs : list chunk) (e : exn)
    (segs : list span) (log : list message) (base pad : Z) :
  load_items E pre ([], []) = ((segs, log), None) ->
  item_addr_ok E item = true ->
  lookup E (item_path item) = File content ->
  suffix_lower E (item_path item) = ".hex"%string ->
  read_hex_records content = (cs, Some e) ->
  collect_segments E (pre ++ item :: post) = (inr (Died e), log)
  /\ status (main E (pre ++ item :: post) base pad) = 1
  /\ output (main E (pre ++ item :: post) base pad) = None.
Proof.
  intros Hpre Haddr Hfile Hsuf Hread.
  assert (Hcol : collect_segments E (pre ++ item :: post) = (inr (Died e), log)).
  { unfold collect_segments. rewrite (load_items_app E pre _ _ _ Hpre).
    cbn [load_items]. unfold load_item, item_addr_ok, item_path in *.
    destruct (rsplit_at item) as [[p a]|];
      [destruct (int_auto E a); [|discriminate]|];
      unfold load_path; rewrite Hfile, Hsuf, Hread; reflexivity. }
  repeat split; [exact Hcol | |]; unfold main; now rewrite Hcol.
Qed.

Lemma failing_hex_ends_run_witness :
  let inputs := ["boot.bin@0x08000000"%string] ++ "bad.hex"%string
                :: ["app.hex"%string] in
  read_hex_records bad_hex = ([(0, [xaa; xbb])], Some ValueError)
  /\ collect_segments faulty_env inputs = (inr (Died ValueError), [])
  /\ status (main faulty_env inputs 0x08000000 0xFF) = 1
  /\ output (main faulty_env inputs 0x08000000 0xFF) = None.
Proof.
  split; [reflexivity|].
  exact (failing_hex_ends_run faulty_env ["boot.bin@0x08000000"%string]
           ["app.hex"%string] "bad.hex" bad_hex [(0, [xaa; xbb])] ValueError
           _ _ 0x08000000 0xFF eq_refl eq_refl eq_refl eq_refl eq_refl).
Defined.

Lemma load_items_same_item E x y :
  (forall st, load_item E st x = load_item E st y) ->
  forall pre post st,
    load_items E (pre ++ x :: post) st = load_items E (pre ++ y :: post) st.
Proof.
  intros Hxy. induction pre as [|z pre IH]; intros post st.
  - cbn [app load_items]. now rewrite Hxy.
  - cbn [app load_items]. destruct (load_item E st z) as [st1 [s|]];
      [reflexivity | apply IH].
Qed.

(** X18: a load address written after a [.hex] input whose path holds no
    [@] is read as a number and then not used: the call returns what it
    returns for the bare path. *)
Theorem hex_input_address_unused
    (E : env) (pre post : list string) (item path_str addr_str : string) (a : Z) :
  rsplit_at item = Some (path_str, addr_str) ->
  rsplit_at path_str = None ->
  int_auto E addr_str = Some a ->
  suffix_lower E path_str = ".hex"%string ->
  collect_segments E (pre ++ item :: post)
  = collect_segments E (pre ++ path_str :: post).
Proof.
  intros Hsplit Hpath Hint Hsuf. unfold collect_segments.
  rewrite (load_items_same_item E item path_str); [reflexivity|].
  intros [segs log]. unfold load_item. rewrite Hsplit, Hpath, Hint.
  unfold load_path. rewrite Hsuf. reflexivity.
Qed.

Lemma hex_input_address_unused_witness :
  collect_segments demo_env ([] ++ "app.hex@0x1000"%string :: ["boot.bin@0x08000000"%string])
  = collect_segments demo_env ([] ++ "app.hex"%string :: ["boot.bin@0x08000000"%string]).
Proof.
  exact (hex_input_address_unused demo_env [] ["boot.bin@0x08000000"%string]
           "app.hex@0x1000" "app.hex" "0x1000" 0x1000
           eq_refl eq_refl eq_refl eq_refl).
Defined.

(** ** One binary input *)

(** X19: a single existing [.bin] input given with its address is copied
    to the output as it is, behind as many pad bytes as the base address
    lies below the load address; the exit status is 0. *)
Theorem single_bin_image
    (E : env) (item path_str addr_str : string) (a base pad : Z)
    (content : bytes) (b : byte) :
  rsplit_at item = Some (path_str, addr_str) ->
  int_auto E addr_str = Some a ->
  lookup E path_str = File content ->
  suffix_lower E path_str = ".bin"%string ->
  byte_of_int pad = Some b ->
  status (main E [item] base pad) = 0
  /\ output (main E [item] base pad) = Some (Py.times b (a - base) ++ content).
Proof.
  intros Hsplit Hint Hfile Hsuf Hb.
  assert (Hcol : collect_segments E [item]
                 = (inl [(a, a + Py.len content, content)], [])).
  { unfold collect_segments. cbn [load_items]. unfold load_item, load_path.
    rewrite Hsplit, Hint, Hfile, Hsuf. reflexivity. }
  unfold main. rewrite Hcol.
  assert (Him : merged_image [(a, a + Py.len content, content)]).
  { split; [|exact I]. constructor; [|constructor].
    unfold span_ok, data_of, end_of, start_of. cbn [fst snd]. lia. }
  rewrite (write_bin_merged _ base pad b _ _ Him eq_refl eq_refl Hb).
  cbn [out_raised out_file status output layout start_of data_of fst snd].
  split; [reflexivity|]. f_equal. rewrite app_nil_r.
  destruct (Z.min_spec a base) as [[Hlt ->]|[Hge ->]].
  - now rewrite Z.sub_diag, !(times_nonpos b) by lia.
  - reflexivity.
Qed.

Lemma single_bin_image_witness :
  status (main demo_env ["boot.bin@0x08000000"%string] 0x07FFFFFC 0xFF) = 0
  /\ output (main demo_env ["boot.bin@0x08000000"%string] 0x07FFFFFC 0xFF)
     = Some (Py.times xff (0x08000000 - 0x07FFFFFC) ++ repeat x00 16).
Proof.
  exact (single_bin_image demo_env "boot.bin@0x08000000" "boot.bin" "0x08000000"
           0x08000000 0x07FFFFFC 0xFF (repeat x00 16) xff
           eq_refl eq_refl eq_refl eq_refl eq_refl).
Defined.

(** ** The range of the addresses a HEX file gives *)

Lemma digit_value_nonneg c : 0 <= digit_value c.
Proof.
  unfold digit_value.
  repeat match goal with
         | |- context [if ?t then _ else _] =>
             let E := fresh "E" in
             destruct t eqn:E;
             [apply andb_true_iff in E as [E _]; apply Z.leb_le in E; lia|]
         end.
  lia.
Qed.

Lemma scan_digits_bound s : forall prev_us acc v rest,
  scan_digits 16 s prev_us acc = Some (v, rest) -> 0 <= acc ->
  0 <= v < (acc + 1) * 16 ^ Z.of_nat (length s).
Proof.
  induction s as [|c s IH]; intros prev_us acc v rest H Hacc.
  - cbn [scan_digits] in H. destruct prev_us; [discriminate|].
    injection H as <- _. simpl. lia.
  - assert (Hpow : 0 < 16 ^ Z.of_nat (length s)) by (apply Z.pow_pos_nonneg; lia).
    cbn [length]. replace (Z.of_nat (S (length s))) with (Z.of_nat (length s) + 1) by lia.
    rewrite Z.pow_add_r by lia. change (16 ^ 1) with 16.
    cbn [scan_digits] in H. destruct (digit_value c <? 16) eqn:Ed.
    + apply Z.ltb_lt in Ed. pose proof (digit_value_nonneg c).
      apply IH in H; [|lia]. nia.
    + destruct (c =? "_")%char.
      * destruct prev_us; [discriminate|]. apply IH in H; [|lia]. nia.
      * destruct prev_us; [discriminate|]. injection H as <- _. nia.
Qed.

Lemma skip_spaces_length s : (length (skip_spaces s) <= length s)%nat.
Proof.
  induction s as [|c s IH]; [simpl; lia|].
  cbn [skip_spaces]. destruct (is_c_space c); simpl; lia.
Qed.

Lemma take_sign_length s :
  (length (snd (take_sign s)) <= length s)%nat
  /\ (fst (take_sign s) = 1 \/ fst (take_sign s) = -1).
Proof.
  destruct s as [|c s]; [simpl; auto|]. unfold take_sign.
  destruct (c =? "+")%char; [simpl; split; [lia | auto]|].
  destruct (c =? "-")%char; simpl; split; auto; lia.
Qed.

Lemma skip_prefix16_length s : (length (skip_prefix16 s) <= length s)%nat.
Proof.
  destruct s as [|c0 [|x r]]; try (simpl; lia). unfold skip_prefix16.
  destruct ((c0 =? "0")%char && ((x =? "x")%char || (x =? "X")%char)); [|lia].
  destruct r as [|u r']; [simpl; lia|].
  destruct (u =? "_")%char; simpl; lia.
Qed.

(** A number read by [int(s, 16)] is smaller, in absolute value, than 16
    to the length of [s]. *)
Lemma int16_bound s v : int16 s = Some v -> Z.abs v < 16 ^ Z.of_nat (length s).
Proof.
  unfold int16. intros H.
  pose proof (skip_spaces_length s) as H1.
  pose proof (take_sign_length (skip_spaces s)) as [H2 Hsign].
  destruct (take_sign (skip_spaces s)) as [sign s2]. cbn [fst snd] in H2, Hsign.
  pose proof (skip_prefix16_length s2) as H3.
  destruct (skip_prefix16 s2) as [|c3 s3] eqn:E3; [discriminate|].
  destruct (c3 =? "_")%char; [discriminate|].
  destruct (scan_digits 16 (c3 :: s3) false 0) as [[v' rest]|] eqn:Escan;
    [|discriminate].
  destruct (length rest =? length (c3 :: s3))%nat; [discriminate|].
  destruct (skip_spaces rest); [|discriminate].
  injection H as <-.
  apply scan_digits_bound in Escan; [|lia].
  assert (Hmono : 16 ^ Z.of_nat (length (c3 :: s3)) <= 16 ^ Z.of_nat (length s))
    by (apply Z.pow_le_mono_r; lia).
  destruct Hsign as [-> | ->]; lia.
Qed.

Lemma unpack_be16_bound d v : unpack_be16 d = Some v -> 0 <= v < 65536.
Proof.
  destruct d as [|hi [|lo [|? ?]]]; try discriminate. intros [= <-].
  pose proof (Byte.to_N_bounded hi). pose proof (Byte.to_N_bounded lo). lia.
Qed.

Lemma parse_line_addr_bound raw c a t d :
  parse_line raw = Record c a t d -> -65536 < a < 65536.
Proof.
  unfold parse_line. intros H.
  destruct (strip raw) as [|c0 l]; [discriminate|].
  destruct (negb (c0 =? ":")%char); [discriminate|].
  destruct (int16 _) as [count|]; [|discriminate].
  destruct (int16 (Py.slice _ (Some 3) (Some 7))) as [addr|] eqn:Ea; [|discriminate].
  destruct (int16 (Py.slice _ (Some 7) (Some 9))) as [rtype|]; [|discriminate].
  destruct (fromhex _) as [data|]; [|discriminate].
  injection H as _ <- _ _.
  apply int16_bound in Ea.
  pose proof (len_slice_le (c0 :: l) 3 7) as Hlen. unfold Py.len in Hlen.
  assert (Hmono : 16 ^ Z.of_nat (length (Py.slice (c0 :: l) (Some 3) (Some 7))) <= 16 ^ 4)
    by (apply Z.pow_le_mono_r; lia).
  change (16 ^ 4) with 65536 in Hmono. lia.
Qed.

Lemma read_hex_lines_addr_range lines : forall ext,
  0 <= ext <= 0xFFFF0000 ->
  Forall (fun c => -0x10000 < fst c < 0x100000000) (fst (read_hex_lines ext lines)).
Proof.
  induction lines as [|raw lines IH]; intros ext Hext; [constructor|].
  cbn [read_hex_lines]. unfold hex_line.
  destruct (parse_line raw) as [|e|c a t d] eqn:Ep; [now apply IH | constructor |].
  apply parse_line_addr_bound in Ep.
  destruct (t =? 0).
  - specialize (IH ext Hext). destruct (read_hex_lines ext lines) as [cs e].
    cbn [fst] in *. constructor; [cbn [fst]; lia | exact IH].
  - destruct (t =? 4).
    + destruct (unpack_be16 d) as [v|] eqn:Ev; [|constructor].
      apply unpack_be16_bound in Ev. apply IH.
      rewrite Z.shiftl_mul_pow2 by lia. change (2 ^ 16) with 65536. lia.
    + destruct (t =? 1); [constructor | now apply IH].
Qed.

(** X20: every chunk read from a HEX file has its address below 2^32 and
    above -2^16. *)
Theorem hex_addresses_in_range (content : bytes) :
  Forall (fun c => -0x10000 < fst c < 0x100000000) (fst (read_hex_records content)).
Proof.
  unfold read_hex_records. apply read_hex_lines_addr_range. lia.
Qed.

(** ** Merging again *)

(** X21: what the merger returns, given back to it as chunks, comes out
    unchanged. *)
Theorem merge_chunks_again (cs : list chunk) :
  merge_chunks (map chunk_of_span (merge_chunks cs)) = merge_chunks cs.
Proof. apply merge_chunks_fixed, merge_chunks_image. Qed.

(** ** Bytes and blanks the HEX reader does not see *)

(** X22: a byte above 0x7F anywhere in a HEX file is dropped before the
    file is read: the chunks are those of the file without it. *)
Theorem non_ascii_byte_dropped (pre post : bytes) (b : byte) :
  (128 <= Byte.to_N b)%N ->
  read_hex_records (pre ++ b :: post) = read_hex_records (pre ++ post).
Proof.
  intros Hb. unfold read_hex_records, decode_ascii.
  rewrite !filter_app. cbn [filter].
  now replace (Byte.to_N b <? 128)%N with false
    by (symmetry; apply N.ltb_ge; exact Hb).
Qed.

Lemma non_ascii_byte_dropped_witness :
  read_hex_records (map byte_of_ascii (line ":0200") ++ xe9
                    :: map byte_of_ascii (line "0000AABB99"))
  = ([(0, [xaa; xbb])], None).
Proof.
  rewrite (non_ascii_byte_dropped (map byte_of_ascii (line ":0200")) 
             (map byte_of_ascii (line "0000AABB99")) xe9); [reflexivity|].
  vm_compute. discriminate.
Defined.

Lemma lstrip_spaces ws l :
  forallb is_str_space ws = true -> lstrip (ws ++ l) = lstrip l.
Proof.
  induction ws as [|c ws IH]; intros H; [reflexivity|].
  cbn [forallb] in H. apply andb_true_iff in H as [Hc Hws].
  cbn [app lstrip]. rewrite Hc. now apply IH.
Qed.

Lemma strip_spaces_after ws : forall l,
  forallb is_str_space ws = true -> strip (l ++ ws) = strip l.
Proof.
  induction ws as [|c ws IH] using rev_ind; intros l H; [now rewrite app_nil_r|].
  rewrite forallb_app in H. apply andb_true_iff in H as [Hws Hc].
  cbn [forallb] in Hc. rewrite andb_true_r in Hc.
  rewrite app_assoc, (strip_snoc_space _ c Hc). now apply IH.
Qed.

(** X23: blanks before and after a record on its line do not count: the
    line is read as the record alone. *)
Theorem blanks_around_record (ws1 ws2 l : text) (ext : Z) :
  forallb is_str_space ws1 = true -> forallb is_str_space ws2 = true ->
  parse_line (ws1 ++ l ++ ws2) = parse_line l
  /\ hex_line ext (ws1 ++ l ++ ws2) = hex_line ext l.
Proof.
  intros H1 H2.
  assert (Hs : strip (ws1 ++ l ++ ws2) = strip l).
  { rewrite app_assoc, (strip_spaces_after ws2 _ H2).
    unfold strip. now rewrite (lstrip_spaces ws1 l H1). }
  unfold hex_line, parse_line. now rewrite Hs.
Qed.

Lemma blanks_around_record_witness :
  parse_line (line "    " ++ line ":0400100001020304E2" ++ [" "%char; CR; LF])
  = parse_line (line ":0400100001020304E2")
  /\ hex_line 0 (line "    " ++ line ":0400100001020304E2" ++ [" "%char; CR; LF])
     = hex_line 0 (line ":0400100001020304E2").
Proof.
  exact (blanks_around_record (line "    ") [" "%char; CR; LF]
           (line ":0400100001020304E2") 0 eq_refl eq_refl).
Defined.

(** ** The extended address is replaced, not added to *)

(** X24: of two extended linear address records that follow each other
    only the second counts: the decoding is the same without the first. *)
Theorem ela_record_replaces
    (pre post : list text) (ela1 ela2 : text) (ext c1 a1 c2 a2 : Z)
    (d1 d2 : bytes) :
  parse_line ela1 = Record c1 a1 0x04 d1 -> length d1 = 2%nat ->
  parse_line ela2 = Record c2 a2 0x04 d2 -> length d2 = 2%nat ->
  read_hex_lines ext (pre ++ ela1 :: ela2 :: post)
  = read_hex_lines ext (pre ++ ela2 :: post).
Proof.
  intros Hp1 Hl1 Hp2 Hl2. revert ext.
  assert (H1 : exists v1, unpack_be16 d1 = Some v1)
    by (destruct d1 as [|? [|? [|? ?]]]; try discriminate Hl1; eexists; reflexivity).
  assert (H2 : exists v2, unpack_be16 d2 = Some v2)
    by (destruct d2 as [|? [|? [|? ?]]]; try discriminate Hl2; eexists; reflexivity).
  destruct H1 as [v1 Hv1], H2 as [v2 Hv2].
  induction pre as [|x pre IH]; intros ext.
  - cbn [app read_hex_lines]. unfold hex_line.
    now rewrite Hp1, Hp2, Hv1, Hv2.
  - cbn [app read_hex_lines].
    destruct (hex_line ext x); try reflexivity; now rewrite IH.
Qed.

Lemma ela_record_replaces_witness :
  read_hex_lines 0 ([] ++ line ":020000040001F9" :: line ":020000040800F2"
                    :: [line ":02000000AABB99"])
  = ([(0x08000000, [xaa; xbb])], None).
Proof.
  rewrite (ela_record_replaces [] [line ":02000000AABB99"]
             (line ":020000040001F9") (line ":020000040800F2")
             0 2 0 2 0 [x00; x01] [x08; x00] eq_refl eq_refl eq_refl eq_refl).
  reflexivity.
Defined.
